(** * Escalator, pkg/k8s/util.go: usage and capacity aggregation

    A shallow embedding of the aggregation functions of [pkg/k8s/util.go]
    (CalculatePodsRequestedUsage, CalculateNodesCapacity, mapPods, sumByFunc,
    isPodScheduled, isPodUsingNodeResources, GetNodeAvailableResources) and
    the properties of them stated by the specification.

    Conventions of the embedding:
    - Go's [int64] is a [Z] in the range of [int64_range]; every [int64]
      addition and subtraction of the source is followed by [wrap64], the
      two's-complement reduction Go performs on overflow.
    - Go's string-typed enumerations (PodPhase, PodConditionType,
      ConditionStatus) stay strings, compared with [String.eqb].
    - a slice of pod or node pointers is a list of records (the pointers of
      the source are never nil and never written through).
    - a [resource.Quantity] is the whole amount it denotes; its [int64]
      readings are embedded for amounts that fit an [int64], and a
      statement that reads a node's allocatable amount says so with
      [int64_range].
    - a Go map with string keys is a [gmap string _].
    - a [for ... range] loop over a slice is a [fold_left] of its body. *)

From Stdlib Require Import ZArith Lia List Permutation.
From stdpp Require Import base option list gmap strings.

Local Open Scope string_scope.
Local Open Scope list_scope.
Local Open Scope Z_scope.

(** ** Machine integers *)

Definition int64_min : Z := - 2 ^ 63.
Definition int64_max : Z := 2 ^ 63 - 1.

Definition int64_range (z : Z) : Prop := int64_min <= z <= int64_max.

(** The value an [int64] holds after an arithmetic result [z]. *)
Definition wrap64 (z : Z) : Z := (z + 2 ^ 63) mod 2 ^ 64 - 2 ^ 63.

Definition add64 (a b : Z) : Z := wrap64 (a + b).
Definition sub64 (a b : Z) : Z := wrap64 (a - b).

(** ** k8s.io/apimachinery/pkg/api/resource *)

Module resource.

(** [resource.Quantity] is an exact fixed-point number.  The embedding
    keeps the amount it denotes, counted in the unit in which the source
    reads the field back: milli-units for a CPU quantity (read with
    [MilliValue]) and bytes for a memory quantity (read with [Value]).
    [Quantity.Add] is exact: when the [int64] fast path would overflow it
    continues in arbitrary precision. *)
Definition Quantity : Type := Z.

Definition Add (q y : Quantity) : Quantity := q + y.

(** Reading of a memory quantity, in bytes.  [Value()] returns an [int64]:
    the amount itself when the amount fits an [int64].  For a larger amount
    the number it returns depends on the representation of the quantity
    (zero, or a wrapped number) and is outside the embedding: a statement
    that reads an allocatable amount of a node is made for nodes whose
    amount satisfies [int64_range].  The quantities the source builds
    itself come from an [int64] and always fit. *)
Definition Value (q : Quantity) : Z := q.

(** Reading of a CPU quantity, in milli-units, with the same proviso as
    [Value]. *)
Definition MilliValue (q : Quantity) : Z := q.

End resource.

(** ** pkg/k8s/resource *)

Module k8s_resource.

(** Modelled from the spec: [NewCPUQuantity] of pkg/k8s/resource is not
    part of the file; the specification has CPU quantities built from an
    [int64] number of milli-units. *)
Definition NewCPUQuantity (value : Z) : resource.Quantity := value.

(** Modelled from the spec: [NewMemoryQuantity] of pkg/k8s/resource is not
    part of the file; the specification has memory quantities built from
    an [int64] number of bytes. *)
Definition NewMemoryQuantity (value : Z) : resource.Quantity := value.

End k8s_resource.

(** ** k8s.io/api/core/v1 *)

Module v1.

Definition PodPending : string := "Pending".
Definition PodRunning : string := "Running".
Definition PodSucceeded : string := "Succeeded".
Definition PodFailed : string := "Failed".
Definition PodUnknown : string := "Unknown".

Definition PodScheduled : string := "PodScheduled".

Definition ConditionTrue : string := "True".
Definition ConditionFalse : string := "False".
Definition ConditionUnknown : string := "Unknown".

Record PodCondition : Type := mkPodCondition {
  Type_ : string;
  Status_ : string
}.

Record PodStatus : Type := mkPodStatus {
  Phase : string;
  Conditions : list PodCondition;
  NominatedNodeName : string
}.

(** Modelled from the spec: the request extractor
    [scheduler.ComputePodResourceRequest] of pkg/k8s/scheduler is not part
    of the file; the specification has it derive, from the pod alone, the
    pod's effective request as CPU milli-units and memory bytes.  The
    pod's [Spec] is represented by these two [int64] numbers. *)
Record PodSpec : Type := mkPodSpec {
  RequestMilliCPU : Z;
  RequestMemory : Z
}.

Record Pod : Type := mkPod {
  Spec : PodSpec;
  Status : PodStatus
}.

(** [ResourceList] maps a resource name to a quantity. *)
Abbreviation ResourceList := (gmap string resource.Quantity).

Definition ResourceCPU : string := "cpu".
Definition ResourceMemory : string := "memory".

(** [Cpu()] and [Memory()] return the entry, or a zero quantity. *)
Definition Cpu (rl : ResourceList) : resource.Quantity :=
  match rl !! ResourceCPU with Some q => q | None => 0 end.

Definition Memory (rl : ResourceList) : resource.Quantity :=
  match rl !! ResourceMemory with Some q => q | None => 0 end.

Record NodeStatus : Type := mkNodeStatus { Allocatable : ResourceList }.

Record Node : Type := mkNode {
  Name : string;
  NStatus : NodeStatus
}.

End v1.

(** ** pkg/k8s/scheduler *)

Module scheduler.

(** The request of one pod: [MilliCPU] and [Memory] are [int64]. *)
Record Resource : Type := mkResource { MilliCPU : Z; Memory : Z }.

(** Modelled from the spec: [ComputePodResourceRequest] of
    pkg/k8s/scheduler is not part of the file; it returns the effective
    request of the pod. *)
Definition ComputePodResourceRequest (pod : v1.Pod) : Resource :=
  {| MilliCPU := v1.RequestMilliCPU (v1.Spec pod);
     Memory := v1.RequestMemory (v1.Spec pod) |}.

End scheduler.

(** ** pkg/k8s/util.go *)

Record ResourceItem : Type := mkResourceItem {
  CPU : resource.Quantity;
  Memory : resource.Quantity
}.

Record PodRequestedUsage : Type := mkPodRequestedUsage {
  Total : ResourceItem;
  LargestMemory : ResourceItem;
  LargestCPU : ResourceItem
}.

Record NodeAvailableCapacity : Type := mkNodeAvailableCapacity {
  NTotal : ResourceItem;
  LargestAvailableMemory : ResourceItem;
  LargestAvailableCPU : ResourceItem
}.

(** Go's [error]: [None] is [nil]. *)
Definition error : Type := option string.
Definition nil_error : error := None.

Definition newEmptyResourceItem : ResourceItem :=
  {| CPU := k8s_resource.NewCPUQuantity 0;
     Memory := k8s_resource.NewMemoryQuantity 0 |}.

Definition newResourceItem (cpu memory : Z) : ResourceItem :=
  {| CPU := k8s_resource.NewCPUQuantity cpu;
     Memory := k8s_resource.NewMemoryQuantity memory |}.

Definition NewPodRequestedUsage : PodRequestedUsage :=
  {| Total := newEmptyResourceItem;
     LargestMemory := newEmptyResourceItem;
     LargestCPU := newEmptyResourceItem |}.

Definition newNodeAvailableCapacity : NodeAvailableCapacity :=
  {| NTotal := newEmptyResourceItem;
     LargestAvailableMemory := newEmptyResourceItem;
     LargestAvailableCPU := newEmptyResourceItem |}.

(** The body of the loop of [CalculatePodsRequestedUsage]. *)
Definition podsUsageStep (ret : PodRequestedUsage) (pod : v1.Pod)
  : PodRequestedUsage :=
  let podResources := scheduler.ComputePodResourceRequest pod in
  let total :=
    {| CPU := resource.Add (CPU (Total ret))
                (k8s_resource.NewCPUQuantity (scheduler.MilliCPU podResources));
       Memory := resource.Add (Memory (Total ret))
                (k8s_resource.NewMemoryQuantity (scheduler.Memory podResources)) |} in
  if String.eqb (v1.Phase (v1.Status pod)) v1.PodPending then
    let largestMemory :=
      if scheduler.Memory podResources >? resource.Value (Memory (LargestMemory ret))
      then newResourceItem (scheduler.MilliCPU podResources) (scheduler.Memory podResources)
      else LargestMemory ret in
    let largestCPU :=
      if scheduler.MilliCPU podResources >? resource.MilliValue (CPU (LargestCPU ret))
      then newResourceItem (scheduler.MilliCPU podResources) (scheduler.Memory podResources)
      else LargestCPU ret in
    {| Total := total; LargestMemory := largestMemory; LargestCPU := largestCPU |}
  else
    {| Total := total; LargestMemory := LargestMemory ret; LargestCPU := LargestCPU ret |}.

Definition CalculatePodsRequestedUsage (pods : list v1.Pod)
  : PodRequestedUsage * error :=
  let ret := NewPodRequestedUsage in
  let ret := fold_left podsUsageStep pods ret in
  (ret, nil_error).

(** The body of the loop of [mapPods]. *)
Definition mapPodsStep (ret : gmap string (list v1.Pod)) (pod : v1.Pod)
  : gmap string (list v1.Pod) :=
  let name := v1.NominatedNodeName (v1.Status pod) in
  let '(ret, val) :=
    match ret !! name with
    | Some val => (ret, val)
    | None => (<[name := []]> ret, [])
    end in
  <[name := val ++ [pod]]> ret.

Definition mapPods (pods : list v1.Pod) : gmap string (list v1.Pod) :=
  fold_left mapPodsStep pods ∅.

Fixpoint isPodScheduledLoop (conditions : list v1.PodCondition) : bool :=
  match conditions with
  | [] => false
  | condition :: rest =>
      if String.eqb (v1.Type_ condition) v1.PodScheduled
      then String.eqb (v1.Status_ condition) v1.ConditionTrue
      else isPodScheduledLoop rest
  end.

Definition isPodScheduled (pod : v1.Pod) : bool :=
  isPodScheduledLoop (v1.Conditions (v1.Status pod)).

Definition isPodUsingNodeResources (pod : v1.Pod) : bool :=
  isPodScheduled pod &&
  (String.eqb (v1.Phase (v1.Status pod)) v1.PodPending
   || String.eqb (v1.Phase (v1.Status pod)) v1.PodRunning).

Definition sumByFunc (pods : list v1.Pod) (f : v1.Pod -> Z) : Z :=
  fold_left
    (fun ret pod => if isPodUsingNodeResources pod then add64 ret (f pod) else ret)
    pods 0.

Definition GetNodeAvailableResources
  (node : v1.Node) (pods : gmap string (list v1.Pod)) : ResourceItem :=
  let filteredPods :=
    match pods !! v1.Name node with Some l => l | None => [] end in
  let usedCpu :=
    sumByFunc filteredPods
      (fun pod => scheduler.MilliCPU (scheduler.ComputePodResourceRequest pod)) in
  let usedMemory :=
    sumByFunc filteredPods
      (fun pod => scheduler.Memory (scheduler.ComputePodResourceRequest pod)) in
  newResourceItem
    (sub64 (resource.MilliValue (v1.Cpu (v1.Allocatable (v1.NStatus node)))) usedCpu)
    (sub64 (resource.Value (v1.Memory (v1.Allocatable (v1.NStatus node)))) usedMemory).

(** The body of the loop of [CalculateNodesCapacity]. *)
Definition nodesCapacityStep (mappedPods : gmap string (list v1.Pod))
  (ret : NodeAvailableCapacity) (node : v1.Node) : NodeAvailableCapacity :=
  let allocatable := v1.Allocatable (v1.NStatus node) in
  let total :=
    {| CPU := resource.Add (CPU (NTotal ret)) (v1.Cpu allocatable);
       Memory := resource.Add (Memory (NTotal ret)) (v1.Memory allocatable) |} in
  let availableResource := GetNodeAvailableResources node mappedPods in
  let largestAvailableCPU :=
    if resource.MilliValue (CPU availableResource)
         >? resource.MilliValue (CPU (LargestAvailableCPU ret))
    then {| CPU := v1.Cpu allocatable; Memory := v1.Memory allocatable |}
    else LargestAvailableCPU ret in
  let largestAvailableMemory :=
    if resource.Value (Memory availableResource)
         >? resource.Value (Memory (LargestAvailableMemory ret))
    then {| CPU := v1.Cpu allocatable; Memory := v1.Memory allocatable |}
    else LargestAvailableMemory ret in
  {| NTotal := total;
     LargestAvailableMemory := largestAvailableMemory;
     LargestAvailableCPU := largestAvailableCPU |}.

Definition CalculateNodesCapacity (nodes : list v1.Node) (pods : list v1.Pod)
  : NodeAvailableCapacity * error :=
  let ret := newNodeAvailableCapacity in
  let mappedPods := mapPods pods in
  let ret := fold_left (nodesCapacityStep mappedPods) nodes ret in
  (ret, nil_error).

(** ** Concrete pods and nodes used in the examples *)

Definition scheduledTrue : list v1.PodCondition :=
  [ {| v1.Type_ := v1.PodScheduled; v1.Status_ := v1.ConditionTrue |} ].

Definition examplePod (phase : string) (conditions : list v1.PodCondition)
  (nominated : string) (cpu memory : Z) : v1.Pod :=
  {| v1.Spec := {| v1.RequestMilliCPU := cpu; v1.RequestMemory := memory |};
     v1.Status := {| v1.Phase := phase; v1.Conditions := conditions;
                     v1.NominatedNodeName := nominated |} |}.

Definition exampleNode (name : string) (cpu memory : Z) : v1.Node :=
  {| v1.Name := name;
     v1.NStatus :=
       {| v1.Allocatable :=
            <[v1.ResourceMemory := memory]> (<[v1.ResourceCPU := cpu]> ∅) |} |}.

(** ** Readings used in the statements *)

Definition podCPU (pod : v1.Pod) : Z :=
  scheduler.MilliCPU (scheduler.ComputePodResourceRequest pod).

Definition podMemory (pod : v1.Pod) : Z :=
  scheduler.Memory (scheduler.ComputePodResourceRequest pod).

(** The full (CPU, Memory) pair of a pod's request. *)
Definition podPair (pod : v1.Pod) : ResourceItem :=
  newResourceItem (podCPU pod) (podMemory pod).

Definition isPending (pod : v1.Pod) : Prop :=
  v1.Phase (v1.Status pod) = v1.PodPending.

(** The full allocatable (CPU, Memory) pair of a node. *)
Definition nodePair (node : v1.Node) : ResourceItem :=
  {| CPU := v1.Cpu (v1.Allocatable (v1.NStatus node));
     Memory := v1.Memory (v1.Allocatable (v1.NStatus node)) |}.

Definition Zsum (l : list Z) : Z := fold_right Z.add 0 l.

(** The result of the two aggregators, without the error. *)
Definition podsUsage (pods : list v1.Pod) : PodRequestedUsage :=
  fst (CalculatePodsRequestedUsage pods).

Definition nodesCapacity (nodes : list v1.Node) (pods : list v1.Pod)
  : NodeAvailableCapacity :=
  fst (CalculateNodesCapacity nodes pods).

(** One "largest" slot of the loop of [CalculatePodsRequestedUsage], seen on
    its own: [key] is the request component compared, [read] the reading of
    the slot it is compared with. *)
Definition track (key : v1.Pod -> Z) (read : ResourceItem -> Z)
  (cur : ResourceItem) (pod : v1.Pod) : ResourceItem :=
  if String.eqb (v1.Phase (v1.Status pod)) v1.PodPending
  then if key pod >? read cur then podPair pod else cur
  else cur.

Definition readMemory (item : ResourceItem) : Z := resource.Value (Memory item).
Definition readCPU (item : ResourceItem) : Z := resource.MilliValue (CPU item).

(** A pending pod that requests 500 milli-CPU and no memory. *)
Definition cpuOnlyPod : v1.Pod := examplePod v1.PodPending [] "" 500 0.

(** A second pending pod without a memory request. *)
Definition cpuOnlyPod' : v1.Pod := examplePod v1.PodPending [] "" 700 0.

(** Pending pods requesting 100, 500 and 300 bytes, and a running one
    requesting more than all of them. *)
Definition pod100 : v1.Pod := examplePod v1.PodPending [] "" 30 100.
Definition pod500 : v1.Pod := examplePod v1.PodPending [] "" 10 500.
Definition pod300 : v1.Pod := examplePod v1.PodPending [] "" 20 300.
Definition pod500' : v1.Pod := examplePod v1.PodPending [] "" 40 500.
Definition podRunning900 : v1.Pod :=
  examplePod v1.PodRunning scheduledTrue "n1" 9000 900.

(** The pods grouped under the node's name: [pods[node.Name]]. *)
Definition groupOf (node : v1.Node) (pods : gmap string (list v1.Pod))
  : list v1.Pod :=
  match pods !! v1.Name node with Some l => l | None => [] end.

(** The sum of [f] over the pods of the node's group that pass the
    is-using-node-resources gate, as an integer without bound. *)
Definition usedBy (f : v1.Pod -> Z) (node : v1.Node)
  (pods : gmap string (list v1.Pod)) : Z :=
  Zsum (map f (List.filter isPodUsingNodeResources (groupOf node pods))).

Definition allocatableCPU (node : v1.Node) : Z :=
  resource.MilliValue (v1.Cpu (v1.Allocatable (v1.NStatus node))).

Definition allocatableMemory (node : v1.Node) : Z :=
  resource.Value (v1.Memory (v1.Allocatable (v1.NStatus node))).

(** A scheduled, running pod nominated to n1 whose CPU request is the
    largest [int64]. *)
Definition hugePod : v1.Pod :=
  examplePod v1.PodRunning scheduledTrue "n1" int64_max 0.

Definition node1 : v1.Node := exampleNode "n1" 1000 (4 * 2 ^ 30).

(** Three nodes, and the pods attributed to the first of them. *)
Definition nodeA : v1.Node := exampleNode "a" 5000 (8 * 2 ^ 30).
Definition nodeB : v1.Node := exampleNode "b" 3000 (4 * 2 ^ 30).
Definition nodeC : v1.Node := exampleNode "c" 3000 (2 * 2 ^ 30).
Definition podsOnA : list v1.Pod :=
  [ examplePod v1.PodRunning scheduledTrue "a" 4000 (2 ^ 30) ].

(** The node and pods of the availability example of the specification: one
    scheduled, running pod and one that has succeeded, both attributed to
    the node. *)
Definition node2 : v1.Node := exampleNode "n2" 2000 (4 * 2 ^ 30).
Definition podsOn2 : list v1.Pod :=
  [ examplePod v1.PodRunning scheduledTrue "n2" 500 (2 ^ 30);
    examplePod v1.PodSucceeded scheduledTrue "n2" 1000 0 ].

(** An over-committed node. *)
Definition podsOver2 : list v1.Pod :=
  [ examplePod v1.PodRunning scheduledTrue "n2" 1500 (2 ^ 30);
    examplePod v1.PodPending scheduledTrue "n2" 1000 (2 ^ 30) ].

(** A pending pod whose CPU request ties with that of [pod100], and a node
    whose allocatable memory ties with that of [nodeB]. *)
Definition pod30' : v1.Pod := examplePod v1.PodPending [] "" 30 700.
Definition nodeD : v1.Node := exampleNode "d" 2000 (4 * 2 ^ 30).

(** The pods of the input nominated to [name], in input order. *)
Definition nominatedTo (name : string) (pods : list v1.Pod) : list v1.Pod :=
  List.filter
    (fun pod => String.eqb (v1.NominatedNodeName (v1.Status pod)) name) pods.

(** The conditions of type PodScheduled of a condition list. *)
Definition scheduledConditions (conditions : list v1.PodCondition)
  : list v1.PodCondition :=
  List.filter (fun c => String.eqb (v1.Type_ c) v1.PodScheduled) conditions.

(** A pod carrying two conditions of type PodScheduled, the first with
    status False and the second with status True. *)
Definition twiceScheduledPod : v1.Pod :=
  examplePod v1.PodRunning
    [ {| v1.Type_ := v1.PodScheduled; v1.Status_ := v1.ConditionFalse |};
      {| v1.Type_ := v1.PodScheduled; v1.Status_ := v1.ConditionTrue |} ]
    "n1" 500 0.

(** A pod with a Ready condition before its PodScheduled condition. *)
Definition readyScheduledPod : v1.Pod :=
  examplePod v1.PodRunning
    ({| v1.Type_ := "Ready"; v1.Status_ := v1.ConditionFalse |} :: scheduledTrue)
    "n1" 500 0.

(** Pods nominated to two nodes and to none. *)
Definition podOnA1 : v1.Pod := examplePod v1.PodRunning scheduledTrue "a" 100 10.
Definition podOnB : v1.Pod := examplePod v1.PodRunning scheduledTrue "b" 200 20.
Definition podOnA2 : v1.Pod := examplePod v1.PodPending scheduledTrue "a" 300 30.
Definition podNowhere1 : v1.Pod := examplePod v1.PodPending [] "" 400 40.
Definition podNowhere2 : v1.Pod := examplePod v1.PodPending [] "" 500 50.
Definition mixedPods : list v1.Pod :=
  [podNowhere1; podOnA1; podOnB; podNowhere2; podOnA2].

(** ** k8s.io/apimachinery/pkg/apis/meta/v1 *)

Module metav1.

Record OwnerReference : Type := mkOwnerReference {
  Kind : string;
  RefName : string
}.

(** A nil [Annotations] map is the empty map. *)
Record ObjectMeta : Type := mkObjectMeta {
  OwnerReferences : list OwnerReference;
  Annotations : gmap string string
}.

End metav1.

(** ** pkg/k8s/util.go: the two pod predicates *)

(** A pod together with its [ObjectMeta], the only part of it the two
    predicates read. *)
Record PodObject : Type := mkPodObject {
  ObjectMeta : metav1.ObjectMeta;
  PodBody : v1.Pod
}.

Fixpoint PodIsDaemonSetLoop (ownerReferences : list metav1.OwnerReference) : bool :=
  match ownerReferences with
  | [] => false
  | ownerReference :: rest =>
      if String.eqb (metav1.Kind ownerReference) "DaemonSet"
      then true
      else PodIsDaemonSetLoop rest
  end.

Definition PodIsDaemonSet (pod : PodObject) : bool :=
  PodIsDaemonSetLoop (metav1.OwnerReferences (ObjectMeta pod)).

Definition configSourceKey : string := "kubernetes.io/config.source".

Definition PodIsStatic (pod : PodObject) : bool :=
  let '(configSource, ok) :=
    match metav1.Annotations (ObjectMeta pod) !! configSourceKey with
    | Some value => (value, true)
    | None => ("", false)
    end in
  ok && String.eqb configSource "file".

(** A pod owned by a ReplicaSet and then by a DaemonSet, annotated as read
    from a file. *)
Definition daemonStaticPod : PodObject :=
  {| ObjectMeta :=
       {| metav1.OwnerReferences :=
            [ {| metav1.Kind := "ReplicaSet"; metav1.RefName := "rs" |};
              {| metav1.Kind := "DaemonSet"; metav1.RefName := "ds" |} ];
          metav1.Annotations :=
            <[ "team" := "infra" ]> (<[ configSourceKey := "file" ]> ∅) |};
     PodBody := cpuOnlyPod |}.

(** A pod owned by a ReplicaSet, whose configuration came from the api. *)
Definition plainPod : PodObject :=
  {| ObjectMeta :=
       {| metav1.OwnerReferences :=
            [ {| metav1.Kind := "ReplicaSet"; metav1.RefName := "rs" |} ];
          metav1.Annotations := <[ configSourceKey := "api" ]> ∅ |};
     PodBody := cpuOnlyPod |}.

(** A completed pod and an unscheduled pod attributed to n2. *)
Definition idlePodsOn2 : list v1.Pod :=
  [ examplePod v1.PodSucceeded scheduledTrue "n2" 1000 (2 ^ 30);
    examplePod v1.PodPending [] "n2" 700 (2 ^ 30) ].

(** The readings of a node's available pair under a grouping. *)
Definition availableCPU (mapped : gmap string (list v1.Pod)) (node : v1.Node) : Z :=
  readCPU (GetNodeAvailableResources node mapped).

Definition availableMemory (mapped : gmap string (list v1.Pod)) (node : v1.Node) : Z :=
  readMemory (GetNodeAvailableResources node mapped).

(** Two nodes that are full or over-committed by the pods attributed to
    them. *)
Definition nodeFull : v1.Node := exampleNode "full" 1000 (2 ^ 30).
Definition nodeOver : v1.Node := exampleNode "over" 1000 (2 ^ 30).
Definition podsFilling : list v1.Pod :=
  [ examplePod v1.PodRunning scheduledTrue "full" 1000 (2 ^ 30);
    examplePod v1.PodRunning scheduledTrue "over" 800 (2 ^ 30);
    examplePod v1.PodPending scheduledTrue "over" 700 (2 ^ 30) ].

(** A node with little room left, and two nodes of nearly equal size. *)
Definition nodeBusy : v1.Node := exampleNode "busy" 8000 (16 * 2 ^ 30).
Definition nodeSmall : v1.Node := exampleNode "small" 2000 (4 * 2 ^ 30).
Definition podsOnBusy : list v1.Pod :=
  [ examplePod v1.PodRunning scheduledTrue "busy" 7500 (15 * 2 ^ 30) ].

(** * Properties *)

Example spec_property_5 :
  let node := exampleNode "n1" 2000 (4 * 2 ^ 30) in
  let pods :=
    [ examplePod v1.PodRunning scheduledTrue "n1" 500 (2 ^ 30);
      examplePod v1.PodSucceeded scheduledTrue "n1" 1000 0 ] in
  GetNodeAvailableResources node (mapPods pods)
  = newResourceItem 1500 (3 * 2 ^ 30).
Proof. vm_compute. reflexivity. Qed.

(** ** The loop of CalculatePodsRequestedUsage *)

Lemma Zsum_app (l1 l2 : list Z) : Zsum (l1 ++ l2) = Zsum l1 + Zsum l2.
Proof. induction l1 as [|x l1 IH]; simpl; [reflexivity | rewrite IH; lia]. Qed.

Lemma podsUsage_snoc (pods : list v1.Pod) (pod : v1.Pod) :
  podsUsage (pods ++ [pod]) = podsUsageStep (podsUsage pods) pod.
Proof.
  unfold podsUsage, CalculatePodsRequestedUsage. simpl.
  rewrite fold_left_app. reflexivity.
Qed.

Lemma podsUsageStep_Total (ret : PodRequestedUsage) (pod : v1.Pod) :
  Total (podsUsageStep ret pod)
  = {| CPU := CPU (Total ret) + podCPU pod;
       Memory := Memory (Total ret) + podMemory pod |}.
Proof.
  unfold podsUsageStep.
  destruct (String.eqb _ _); reflexivity.
Qed.

Lemma fold_podsUsageStep_Total (pods : list v1.Pod) (ret : PodRequestedUsage) :
  Total (fold_left podsUsageStep pods ret)
  = {| CPU := CPU (Total ret) + Zsum (map podCPU pods);
       Memory := Memory (Total ret) + Zsum (map podMemory pods) |}.
Proof.
  revert ret. induction pods as [|pod pods IH]; intros ret; simpl.
  - destruct ret as [[c m] ? ?]; simpl. f_equal; lia.
  - rewrite IH, podsUsageStep_Total. simpl. f_equal; lia.
Qed.

Lemma podsUsage_Total (pods : list v1.Pod) :
  Total (podsUsage pods)
  = {| CPU := Zsum (map podCPU pods); Memory := Zsum (map podMemory pods) |}.
Proof.
  unfold podsUsage, CalculatePodsRequestedUsage. simpl.
  rewrite fold_podsUsageStep_Total. reflexivity.
Qed.

Section Tracker.

Variable key : v1.Pod -> Z.
Variable read : ResourceItem -> Z.
Hypothesis read_podPair : forall pod, read (podPair pod) = key pod.

#[local] Abbreviation track := (track key read).

Lemma track_not_pending cur pod : ~ isPending pod -> track cur pod = cur.
Proof.
  unfold track, isPending. intros Hn.
  destruct (String.eqb_spec (v1.Phase (v1.Status pod)) v1.PodPending);
    [contradiction | reflexivity].
Qed.

Lemma track_install cur pod :
  isPending pod -> read cur < key pod -> track cur pod = podPair pod.
Proof.
  unfold track, isPending. intros -> Hlt. simpl.
  destruct (Z.gtb_spec (key pod) (read cur)); [reflexivity | lia].
Qed.

Lemma track_keep cur pod :
  (isPending pod -> key pod <= read cur) -> track cur pod = cur.
Proof.
  unfold track, isPending. intros Hle.
  destruct (String.eqb_spec (v1.Phase (v1.Status pod)) v1.PodPending) as [E|E];
    [| reflexivity].
  destruct (Z.gtb_spec (key pod) (read cur)); [specialize (Hle E); lia | reflexivity].
Qed.

Lemma fold_track_keep pods cur :
  (forall q, In q pods -> isPending q -> key q <= read cur) ->
  fold_left track pods cur = cur.
Proof.
  induction pods as [|pod pods IH]; simpl; intros H; [reflexivity |].
  rewrite track_keep by (apply H; left; reflexivity).
  apply IH. intros q Hq. apply H. right. exact Hq.
Qed.

Lemma fold_track_below pods cur bound :
  read cur < bound ->
  (forall q, In q pods -> isPending q -> key q < bound) ->
  read (fold_left track pods cur) < bound.
Proof.
  revert cur. induction pods as [|pod pods IH]; simpl; intros cur Hc H;
    [exact Hc |].
  apply IH.
  - unfold track.
    destruct (String.eqb_spec (v1.Phase (v1.Status pod)) v1.PodPending) as [E|E];
      [| exact Hc].
    destruct (key pod >? read cur); [| exact Hc].
    rewrite read_podPair. apply H; [left; reflexivity | exact E].
  - intros q Hq. apply H. right. exact Hq.
Qed.

(** A pending pod that exceeds the slot when met, strictly exceeds every
    pending pod before it and is not exceeded by any pending pod after it,
    is the one the slot holds at the end. *)
Lemma fold_track_split l1 pod l2 cur :
  isPending pod ->
  read cur < key pod ->
  (forall q, In q l1 -> isPending q -> key q < key pod) ->
  (forall q, In q l2 -> isPending q -> key q <= key pod) ->
  fold_left track (l1 ++ pod :: l2) cur = podPair pod.
Proof.
  intros Hp Hc H1 H2.
  rewrite fold_left_app. simpl.
  rewrite (track_install _ _ Hp (fold_track_below l1 cur (key pod) Hc H1)).
  apply fold_track_keep. intros q Hq Hpend.
  rewrite read_podPair. apply H2; assumption.
Qed.

(** Removing a pod that is not pending changes nothing. *)
Lemma fold_track_skip l1 pod l2 cur :
  ~ isPending pod ->
  fold_left track (l1 ++ pod :: l2) cur = fold_left track (l1 ++ l2) cur.
Proof.
  intros Hn. rewrite !fold_left_app. simpl.
  rewrite (track_not_pending _ _ Hn). reflexivity.
Qed.

End Tracker.

Lemma readMemory_podPair pod : readMemory (podPair pod) = podMemory pod.
Proof. reflexivity. Qed.

Lemma readCPU_podPair pod : readCPU (podPair pod) = podCPU pod.
Proof. reflexivity. Qed.

Lemma fold_podsUsageStep_LargestMemory (pods : list v1.Pod) (ret : PodRequestedUsage) :
  LargestMemory (fold_left podsUsageStep pods ret)
  = fold_left (track podMemory readMemory) pods (LargestMemory ret).
Proof.
  revert ret. induction pods as [|pod pods IH]; intros ret; simpl; [reflexivity |].
  rewrite IH. f_equal.
  unfold podsUsageStep, track.
  destruct (String.eqb _ _); reflexivity.
Qed.

Lemma fold_podsUsageStep_LargestCPU (pods : list v1.Pod) (ret : PodRequestedUsage) :
  LargestCPU (fold_left podsUsageStep pods ret)
  = fold_left (track podCPU readCPU) pods (LargestCPU ret).
Proof.
  revert ret. induction pods as [|pod pods IH]; intros ret; simpl; [reflexivity |].
  rewrite IH. f_equal.
  unfold podsUsageStep, track.
  destruct (String.eqb _ _); reflexivity.
Qed.

Lemma podsUsage_LargestMemory (pods : list v1.Pod) :
  LargestMemory (podsUsage pods)
  = fold_left (track podMemory readMemory) pods newEmptyResourceItem.
Proof. apply fold_podsUsageStep_LargestMemory. Qed.

Lemma podsUsage_LargestCPU (pods : list v1.Pod) :
  LargestCPU (podsUsage pods)
  = fold_left (track podCPU readCPU) pods newEmptyResourceItem.
Proof. apply fold_podsUsageStep_LargestCPU. Qed.

(** ** Properties of CalculatePodsRequestedUsage *)

Example spec_property_3 :
  LargestMemory (podsUsage [pod100; pod500; pod300]) = newResourceItem 10 500
  /\ LargestMemory (podsUsage [pod300; pod100; pod500]) = newResourceItem 10 500
  /\ LargestCPU (podsUsage [pod100; pod500; pod300]) = newResourceItem 30 100.
Proof. repeat split; reflexivity. Qed.

(** C9. On an empty pod list CalculatePodsRequestedUsage returns a
    PodRequestedUsage whose Total, LargestMemory and LargestCPU are zero in
    both CPU and Memory; on empty node and pod lists CalculateNodesCapacity
    returns the all-zero NodeAvailableCapacity; both return a nil error. *)
Theorem empty_input_all_zero :
  CalculatePodsRequestedUsage []
  = ({| Total := {| CPU := 0; Memory := 0 |};
        LargestMemory := {| CPU := 0; Memory := 0 |};
        LargestCPU := {| CPU := 0; Memory := 0 |} |}, None)
  /\ CalculateNodesCapacity [] []
     = ({| NTotal := {| CPU := 0; Memory := 0 |};
           LargestAvailableMemory := {| CPU := 0; Memory := 0 |};
           LargestAvailableCPU := {| CPU := 0; Memory := 0 |} |}, None).
Proof. split; reflexivity. Qed.

(** C10. For every input the error returned by CalculatePodsRequestedUsage
    and by CalculateNodesCapacity is nil. *)
Theorem aggregators_error_nil (nodes : list v1.Node) (pods : list v1.Pod) :
  snd (CalculatePodsRequestedUsage pods) = nil_error
  /\ snd (CalculateNodesCapacity nodes pods) = nil_error.
Proof. split; reflexivity. Qed.

(** C8. When every pod's extracted request is non-negative, appending a pod
    to the input of CalculatePodsRequestedUsage does not decrease Total.CPU
    nor Total.Memory. *)
Theorem total_monotone (pods : list v1.Pod) (pod : v1.Pod) :
  (forall q, In q (pods ++ [pod]) -> 0 <= podCPU q /\ 0 <= podMemory q) ->
  CPU (Total (podsUsage pods)) <= CPU (Total (podsUsage (pods ++ [pod])))
  /\ Memory (Total (podsUsage pods)) <= Memory (Total (podsUsage (pods ++ [pod]))).
Proof.
  intros Hnonneg.
  destruct (Hnonneg pod) as [Hc Hm]; [apply in_or_app; right; left; reflexivity |].
  rewrite podsUsage_snoc, podsUsageStep_Total. simpl. lia.
Qed.

Lemma total_monotone_witness :
  CPU (Total (podsUsage [pod100; pod500]))
    <= CPU (Total (podsUsage ([pod100; pod500] ++ [podRunning900])))
  /\ Memory (Total (podsUsage [pod100; pod500]))
    <= Memory (Total (podsUsage ([pod100; pod500] ++ [podRunning900]))).
Proof.
  apply (total_monotone [pod100; pod500] podRunning900).
  intros q Hq. simpl in Hq.
  destruct Hq as [<- | [<- | [<- | []]]]; vm_compute; split; discriminate.
Defined.

(** C5. A pod whose phase is not Pending (Running, for instance) adds its
    extracted request to Total and leaves LargestMemory and LargestCPU as
    they are without it, whatever it requests. *)
Theorem non_pending_only_in_total (l1 l2 : list v1.Pod) (pod : v1.Pod) :
  v1.Phase (v1.Status pod) <> v1.PodPending ->
  CPU (Total (podsUsage (l1 ++ pod :: l2)))
    = CPU (Total (podsUsage (l1 ++ l2))) + podCPU pod
  /\ Memory (Total (podsUsage (l1 ++ pod :: l2)))
    = Memory (Total (podsUsage (l1 ++ l2))) + podMemory pod
  /\ LargestMemory (podsUsage (l1 ++ pod :: l2)) = LargestMemory (podsUsage (l1 ++ l2))
  /\ LargestCPU (podsUsage (l1 ++ pod :: l2)) = LargestCPU (podsUsage (l1 ++ l2)).
Proof.
  intros Hphase.
  rewrite !podsUsage_Total, !podsUsage_LargestMemory, !podsUsage_LargestCPU.
  rewrite !map_app, !Zsum_app. simpl.
  repeat split; try lia; apply fold_track_skip; exact Hphase.
Qed.

Lemma non_pending_only_in_total_witness :
  CPU (Total (podsUsage ([pod100] ++ podRunning900 :: [pod500]))) = 40 + 9000
  /\ Memory (Total (podsUsage ([pod100] ++ podRunning900 :: [pod500]))) = 600 + 900
  /\ LargestMemory (podsUsage ([pod100] ++ podRunning900 :: [pod500]))
     = newResourceItem 10 500
  /\ LargestCPU (podsUsage ([pod100] ++ podRunning900 :: [pod500]))
     = newResourceItem 30 100.
Proof.
  exact (non_pending_only_in_total [pod100] [pod500] podRunning900
           ltac:(discriminate)).
Defined.

(** C1, as stated, fails: a single pending pod requesting CPU only has the
    strictly largest memory request of all pending pods, and LargestMemory
    stays the zero pair instead of the pod's pair. *)
Lemma largest_pending_counterexample :
  ~ (forall (l1 l2 : list v1.Pod) (pod : v1.Pod),
       isPending pod ->
       (forall q, In q (l1 ++ l2) -> isPending q -> podMemory q < podMemory pod) ->
       LargestMemory (podsUsage (l1 ++ pod :: l2)) = podPair pod).
Proof.
  intros H. specialize (H [] [] cpuOnlyPod eq_refl).
  assert (E : LargestMemory (podsUsage ([] ++ [cpuOnlyPod])) = podPair cpuOnlyPod).
  { apply H. intros q []. }
  vm_compute in E. discriminate E.
Qed.

(** C1, amended.  In CalculatePodsRequestedUsage, LargestMemory is the full
    (CPU, Memory) pair of the Pending pod whose extracted memory request is
    strictly positive and strictly larger than that of every other Pending
    pod, and LargestCPU, independently, the full pair of the Pending pod
    with the strictly positive, strictly largest CPU request; this holds for
    every processing order [pods'] of the list.  When no Pending pod has a
    strictly positive memory (CPU) request, LargestMemory (LargestCPU) keeps
    its initial zero pair. *)
Theorem largest_pending_request (l1 l2 pods' : list v1.Pod) (pod : v1.Pod) :
  (isPending pod ->
   Permutation (l1 ++ pod :: l2) pods' ->
   (0 < podMemory pod ->
    (forall q, In q (l1 ++ l2) -> isPending q -> podMemory q < podMemory pod) ->
    LargestMemory (podsUsage pods') = podPair pod)
   /\ (0 < podCPU pod ->
       (forall q, In q (l1 ++ l2) -> isPending q -> podCPU q < podCPU pod) ->
       LargestCPU (podsUsage pods') = podPair pod))
  /\ ((forall q, In q pods' -> isPending q -> podMemory q <= 0) ->
      LargestMemory (podsUsage pods') = newEmptyResourceItem)
  /\ ((forall q, In q pods' -> isPending q -> podCPU q <= 0) ->
      LargestCPU (podsUsage pods') = newEmptyResourceItem).
Proof.
  split; [| split].
  2: { intros Hnone. rewrite podsUsage_LargestMemory.
       apply fold_track_keep. exact Hnone. }
  2: { intros Hnone. rewrite podsUsage_LargestCPU.
       apply fold_track_keep. exact Hnone. }
  intros Hpend Hperm.
  assert (Hin : In pod pods').
  { eapply Permutation_in; [exact Hperm |]. apply in_or_app. right. left. reflexivity. }
  destruct (in_split _ _ Hin) as (l1' & l2' & ->).
  assert (Hrest : forall q, In q (l1' ++ l2') -> In q (l1 ++ l2)).
  { intros q. apply Permutation_in. symmetry.
    eapply Permutation_app_inv. exact Hperm. }
  split; intros Hpos Hmax.
  - rewrite podsUsage_LargestMemory.
    apply (fold_track_split podMemory readMemory readMemory_podPair);
      [exact Hpend | exact Hpos | |];
      intros q Hq Hp.
    + apply Hmax; [apply Hrest, in_or_app; left; exact Hq | exact Hp].
    + apply Z.lt_le_incl, Hmax; [apply Hrest, in_or_app; right; exact Hq | exact Hp].
  - rewrite podsUsage_LargestCPU.
    apply (fold_track_split podCPU readCPU readCPU_podPair);
      [exact Hpend | exact Hpos | |];
      intros q Hq Hp.
    + apply Hmax; [apply Hrest, in_or_app; left; exact Hq | exact Hp].
    + apply Z.lt_le_incl, Hmax; [apply Hrest, in_or_app; right; exact Hq | exact Hp].
Qed.

Lemma largest_pending_request_witness :
  LargestMemory (podsUsage [pod300; podRunning900; pod100; pod500]) = podPair pod500
  /\ LargestCPU (podsUsage [pod300; podRunning900; pod100; pod500]) = podPair pod100
  /\ LargestMemory (podsUsage [cpuOnlyPod; podRunning900; cpuOnlyPod'])
     = newEmptyResourceItem
  /\ LargestCPU (podsUsage [podRunning900]) = newEmptyResourceItem.
Proof.
  split; [| split; [| split]].
  3: { apply (proj1 (proj2 (largest_pending_request [] []
                              [cpuOnlyPod; podRunning900; cpuOnlyPod'] cpuOnlyPod))).
       intros q [<- | [<- | [<- | []]]] Hp;
         [vm_compute; discriminate | discriminate Hp | vm_compute; discriminate]. }
  3: { apply (proj2 (proj2 (largest_pending_request [] [] [podRunning900] cpuOnlyPod))).
       intros q [<- | []] Hp. discriminate Hp. }
  - refine (proj1 (proj1 (largest_pending_request [pod100] [pod300; podRunning900]
                     [pod300; podRunning900; pod100; pod500] pod500) eq_refl _) _ _).
    + exact (Permutation_app_comm [pod100; pod500] [pod300; podRunning900]).
    + reflexivity.
    + intros q Hq Hp. simpl in Hq.
      destruct Hq as [<- | [<- | [<- | []]]]; try reflexivity.
      discriminate Hp.
  - refine (proj2 (proj1 (largest_pending_request [] [pod500; pod300; podRunning900]
                     [pod300; podRunning900; pod100; pod500] pod100) eq_refl _) _ _).
    + exact (Permutation_app_comm [pod100; pod500] [pod300; podRunning900]).
    + reflexivity.
    + intros q Hq Hp. simpl in Hq.
      destruct Hq as [<- | [<- | [<- | []]]]; try reflexivity.
      discriminate Hp.
Defined.

(** ** Machine arithmetic *)

Ltac pow64 :=
  change (2 ^ 63) with 9223372036854775808 in *;
  change (2 ^ 64) with 18446744073709551616 in *.

Lemma wrap64_range (z : Z) : int64_range (wrap64 z).
Proof.
  unfold int64_range, int64_min, int64_max, wrap64. pow64.
  pose proof (Z.mod_pos_bound (z + 9223372036854775808) 18446744073709551616
                ltac:(lia)).
  lia.
Qed.

Lemma wrap64_id (z : Z) : int64_range z -> wrap64 z = z.
Proof.
  unfold int64_range, int64_min, int64_max, wrap64. pow64. intros H.
  rewrite Z.mod_small; lia.
Qed.

Lemma wrap64_add_l (a b : Z) : wrap64 (wrap64 a + b) = wrap64 (a + b).
Proof.
  unfold wrap64. f_equal.
  replace ((a + 2 ^ 63) mod 2 ^ 64 - 2 ^ 63 + b + 2 ^ 63)
    with ((a + 2 ^ 63) mod 2 ^ 64 + b) by lia.
  rewrite Zplus_mod_idemp_l. f_equal. lia.
Qed.

Lemma wrap64_sub_r (a b : Z) : wrap64 (a - wrap64 b) = wrap64 (a - b).
Proof.
  unfold wrap64. f_equal.
  replace (a - ((b + 2 ^ 63) mod 2 ^ 64 - 2 ^ 63) + 2 ^ 63)
    with (a + 2 ^ 64 - (b + 2 ^ 63) mod 2 ^ 64) by (pow64; lia).
  rewrite Zminus_mod_idemp_r.
  f_equal. pow64. lia.
Qed.

(** ** sumByFunc and GetNodeAvailableResources *)

Lemma fold_sumByFunc (f : v1.Pod -> Z) (pods : list v1.Pod) (ret : Z) :
  wrap64
    (fold_left
       (fun ret pod => if isPodUsingNodeResources pod then add64 ret (f pod) else ret)
       pods ret)
  = wrap64 (ret + Zsum (map f (List.filter isPodUsingNodeResources pods))).
Proof.
  revert ret. induction pods as [|pod pods IH]; intros ret; simpl.
  - f_equal. lia.
  - rewrite IH. destruct (isPodUsingNodeResources pod); simpl.
    + unfold add64. rewrite wrap64_add_l. f_equal. lia.
    + reflexivity.
Qed.

Lemma sumByFunc_wrap (f : v1.Pod -> Z) (pods : list v1.Pod) :
  wrap64 (sumByFunc pods f)
  = wrap64 (Zsum (map f (List.filter isPodUsingNodeResources pods))).
Proof. unfold sumByFunc. rewrite fold_sumByFunc. reflexivity. Qed.

Lemma GetNodeAvailableResources_wrap (node : v1.Node) (pods : gmap string (list v1.Pod)) :
  GetNodeAvailableResources node pods
  = newResourceItem (wrap64 (allocatableCPU node - usedBy podCPU node pods))
                    (wrap64 (allocatableMemory node - usedBy podMemory node pods)).
Proof.
  unfold GetNodeAvailableResources, usedBy, sub64.
  fold (groupOf node pods). fold (allocatableCPU node). fold (allocatableMemory node).
  f_equal.
  - rewrite <- wrap64_sub_r, sumByFunc_wrap, wrap64_sub_r. reflexivity.
  - rewrite <- wrap64_sub_r, sumByFunc_wrap, wrap64_sub_r. reflexivity.
Qed.

(** C2, as stated, fails: with two scheduled, running pods that each
    request the largest [int64] of milli-CPU grouped under a node with 1000
    milli-CPU allocatable, the [int64] sum and difference wrap around and
    the available CPU is 1002, not 1000 minus the sum of the requests. *)
Lemma node_available_counterexample :
  ~ (forall (node : v1.Node) (pods : gmap string (list v1.Pod)),
       readCPU (GetNodeAvailableResources node pods)
       = allocatableCPU node - usedBy podCPU node pods).
Proof.
  intros H. specialize (H node1 (mapPods [hugePod; hugePod])).
  vm_compute in H. discriminate H.
Qed.

Example node_available_overflow :
  readCPU (GetNodeAvailableResources node1 (mapPods [hugePod; hugePod])) = 1002.
Proof. vm_compute. reflexivity. Qed.

(** C2, amended.  For every node whose allocatable CPU (milli-units) fits
    an [int64] and every pod grouping, GetNodeAvailableResources returns as
    available CPU the node's allocatable CPU minus the sum of the extracted
    CPU requests of exactly those pods grouped under the node's name that
    pass is-using-node-resources, reduced to an [int64] by two's-complement
    wrap-around; whenever that difference fits an [int64] the result is the
    difference itself, negative or not.  The same holds for Memory in
    bytes, for a node whose allocatable memory fits an [int64]. *)
Theorem node_available_resources (node : v1.Node) (pods : gmap string (list v1.Pod)) :
  let available := GetNodeAvailableResources node pods in
  (int64_range (allocatableCPU node) ->
   readCPU available = wrap64 (allocatableCPU node - usedBy podCPU node pods)
   /\ (int64_range (allocatableCPU node - usedBy podCPU node pods) ->
       readCPU available = allocatableCPU node - usedBy podCPU node pods))
  /\ (int64_range (allocatableMemory node) ->
      readMemory available
      = wrap64 (allocatableMemory node - usedBy podMemory node pods)
      /\ (int64_range (allocatableMemory node - usedBy podMemory node pods) ->
          readMemory available
          = allocatableMemory node - usedBy podMemory node pods)).
Proof.
  cbv zeta. rewrite GetNodeAvailableResources_wrap.
  unfold readCPU, readMemory, newResourceItem; simpl.
  split; intros _; (split; [reflexivity | apply wrap64_id]).
Qed.

Lemma node_available_resources_witness :
  readCPU (GetNodeAvailableResources node2 (mapPods podsOn2)) = 1500
  /\ readMemory (GetNodeAvailableResources node2 (mapPods podsOn2)) = 3 * 2 ^ 30
  /\ readCPU (GetNodeAvailableResources node2 (mapPods podsOver2)) = -500.
Proof.
  assert (Hc : int64_range (allocatableCPU node2)) by (vm_compute; split; discriminate).
  assert (Hm : int64_range (allocatableMemory node2)) by (vm_compute; split; discriminate).
  split; [| split].
  - refine (proj2 (proj1 (node_available_resources node2 (mapPods podsOn2)) Hc) _).
    vm_compute. split; discriminate.
  - refine (proj2 (proj2 (node_available_resources node2 (mapPods podsOn2)) Hm) _).
    vm_compute. split; discriminate.
  - refine (proj2 (proj1 (node_available_resources node2 (mapPods podsOver2)) Hc) _).
    vm_compute. split; discriminate.
Defined.

(** ** The loop of CalculateNodesCapacity *)

Lemma nodesCapacity_snoc (nodes : list v1.Node) (node : v1.Node) (pods : list v1.Pod) :
  nodesCapacity (nodes ++ [node]) pods
  = nodesCapacityStep (mapPods pods) (nodesCapacity nodes pods) node.
Proof.
  unfold nodesCapacity, CalculateNodesCapacity. simpl.
  rewrite fold_left_app. reflexivity.
Qed.

Lemma fold_nodesCapacityStep_NTotal (mapped : gmap string (list v1.Pod))
  (nodes : list v1.Node) (ret : NodeAvailableCapacity) :
  NTotal (fold_left (nodesCapacityStep mapped) nodes ret)
  = {| CPU := CPU (NTotal ret) + Zsum (map allocatableCPU nodes);
       Memory := Memory (NTotal ret) + Zsum (map allocatableMemory nodes) |}.
Proof.
  revert ret. induction nodes as [|node nodes IH]; intros ret; simpl.
  - destruct ret as [[c m] ? ?]; simpl. f_equal; lia.
  - rewrite IH. unfold nodesCapacityStep at 1 2. simpl.
    unfold resource.Add, allocatableCPU, allocatableMemory,
      resource.MilliValue, resource.Value.
    f_equal; lia.
Qed.

Lemma nodesCapacityStep_LargestAvailableCPU mapped ret node :
  LargestAvailableCPU (nodesCapacityStep mapped ret node)
  = if readCPU (GetNodeAvailableResources node mapped) >? readCPU (LargestAvailableCPU ret)
    then nodePair node else LargestAvailableCPU ret.
Proof. reflexivity. Qed.

Lemma nodesCapacityStep_LargestAvailableMemory mapped ret node :
  LargestAvailableMemory (nodesCapacityStep mapped ret node)
  = if readMemory (GetNodeAvailableResources node mapped)
         >? readMemory (LargestAvailableMemory ret)
    then nodePair node else LargestAvailableMemory ret.
Proof. reflexivity. Qed.

Example spec_nodes_example :
  nodesCapacity [nodeA; nodeB; nodeC] podsOnA
  = {| NTotal := {| CPU := 11000; Memory := 14 * 2 ^ 30 |};
       LargestAvailableMemory := nodePair nodeA;
       LargestAvailableCPU := nodePair nodeA |}.
Proof. vm_compute. reflexivity. Qed.



(** The pair stored for the winning node is its allocatable pair, which
    differs from its available pair as soon as a pod uses the node. *)
Example largest_available_is_allocatable :
  LargestAvailableCPU (nodesCapacity [nodeA] podsOnA) = newResourceItem 5000 (8 * 2 ^ 30)
  /\ GetNodeAvailableResources nodeA (mapPods podsOnA) = newResourceItem 1000 (7 * 2 ^ 30).
Proof. split; vm_compute; reflexivity. Qed.

(** ** Ties *)

(** C6, as stated, fails: of two pending pods with the same, maximal memory
    request the first is not LargestMemory when that request is zero; the
    slot keeps the zero pair. *)
Lemma tie_counterexample :
  ~ (forall (l1 l2 l3 : list v1.Pod) (first second : v1.Pod),
       isPending first -> isPending second ->
       podMemory second = podMemory first ->
       (forall q, In q l1 -> isPending q -> podMemory q < podMemory first) ->
       (forall q, In q (l2 ++ l3) -> isPending q -> podMemory q <= podMemory first) ->
       LargestMemory (podsUsage (l1 ++ first :: l2 ++ second :: l3)) = podPair first).
Proof.
  intros H.
  specialize (H [] [] [] cpuOnlyPod cpuOnlyPod' eq_refl eq_refl eq_refl).
  assert (E : LargestMemory (podsUsage ([] ++ cpuOnlyPod :: [] ++ cpuOnlyPod' :: []))
              = podPair cpuOnlyPod).
  { apply H; intros q []. }
  vm_compute in E. discriminate E.
Qed.

(** In CalculateNodesCapacity the available amount of a node is compared
    with the allocatable amount of the node stored so far: nodeB and nodeC
    have the largest available CPU (3000 each, against 1000 for nodeA), and
    the slot holds nodeA. *)
Example nodes_largest_available_blocked :
  readCPU (GetNodeAvailableResources nodeA (mapPods podsOnA)) = 1000
  /\ readCPU (GetNodeAvailableResources nodeB (mapPods podsOnA)) = 3000
  /\ readCPU (GetNodeAvailableResources nodeC (mapPods podsOnA)) = 3000
  /\ LargestAvailableCPU (nodesCapacity [nodeA; nodeB; nodeC] podsOnA) = nodePair nodeA.
Proof. repeat split; vm_compute; reflexivity. Qed.

(** C6, amended.  The comparisons are strict and nothing is replaced on
    equality: a pod whose memory (CPU) request equals the reading of the
    current LargestMemory (LargestCPU) leaves it as it is, and, among nodes
    whose allocatable amounts fit an [int64], a node whose available CPU
    (memory) equals the reading of the current LargestAvailableCPU
    (LargestAvailableMemory) leaves it as it is.  When
    two Pending pods have equal, maximal and strictly positive memory
    (CPU) requests, the first of them in input order is LargestMemory
    (LargestCPU) at the end. *)
Theorem tie_keeps_first
  (l1 l2 l3 : list v1.Pod) (first second : v1.Pod)
  (pods : list v1.Pod) (pod : v1.Pod) (nodes : list v1.Node) (node : v1.Node) :
  (isPending first -> isPending second ->
   podMemory second = podMemory first -> 0 < podMemory first ->
   (forall q, In q l1 -> isPending q -> podMemory q < podMemory first) ->
   (forall q, In q (l2 ++ l3) -> isPending q -> podMemory q <= podMemory first) ->
   LargestMemory (podsUsage (l1 ++ first :: l2 ++ second :: l3)) = podPair first)
  /\ (isPending first -> isPending second ->
      podCPU second = podCPU first -> 0 < podCPU first ->
      (forall q, In q l1 -> isPending q -> podCPU q < podCPU first) ->
      (forall q, In q (l2 ++ l3) -> isPending q -> podCPU q <= podCPU first) ->
      LargestCPU (podsUsage (l1 ++ first :: l2 ++ second :: l3)) = podPair first)
  /\ (podMemory pod = readMemory (LargestMemory (podsUsage pods)) ->
      LargestMemory (podsUsage (pods ++ [pod])) = LargestMemory (podsUsage pods))
  /\ (podCPU pod = readCPU (LargestCPU (podsUsage pods)) ->
      LargestCPU (podsUsage (pods ++ [pod])) = LargestCPU (podsUsage pods))
  /\ ((forall n, In n (nodes ++ [node]) -> int64_range (allocatableCPU n)) ->
      readCPU (GetNodeAvailableResources node (mapPods pods))
      = readCPU (LargestAvailableCPU (nodesCapacity nodes pods)) ->
      LargestAvailableCPU (nodesCapacity (nodes ++ [node]) pods)
      = LargestAvailableCPU (nodesCapacity nodes pods))
  /\ ((forall n, In n (nodes ++ [node]) -> int64_range (allocatableMemory n)) ->
      readMemory (GetNodeAvailableResources node (mapPods pods))
      = readMemory (LargestAvailableMemory (nodesCapacity nodes pods)) ->
      LargestAvailableMemory (nodesCapacity (nodes ++ [node]) pods)
      = LargestAvailableMemory (nodesCapacity nodes pods)).
Proof.
  repeat apply conj.
  - intros Hf Hs Heq Hpos Hbefore Hafter.
    rewrite podsUsage_LargestMemory.
    apply (fold_track_split podMemory readMemory readMemory_podPair);
      [exact Hf | exact Hpos | exact Hbefore |].
    intros q Hq Hp. apply in_app_or in Hq. destruct Hq as [Hq | [<- | Hq]].
    + apply Hafter; [apply in_or_app; left; exact Hq | exact Hp].
    + rewrite Heq. apply Z.le_refl.
    + apply Hafter; [apply in_or_app; right; exact Hq | exact Hp].
  - intros Hf Hs Heq Hpos Hbefore Hafter.
    rewrite podsUsage_LargestCPU.
    apply (fold_track_split podCPU readCPU readCPU_podPair);
      [exact Hf | exact Hpos | exact Hbefore |].
    intros q Hq Hp. apply in_app_or in Hq. destruct Hq as [Hq | [<- | Hq]].
    + apply Hafter; [apply in_or_app; left; exact Hq | exact Hp].
    + rewrite Heq. apply Z.le_refl.
    + apply Hafter; [apply in_or_app; right; exact Hq | exact Hp].
  - intros Heq. rewrite !podsUsage_LargestMemory, fold_left_app. simpl.
    apply track_keep. intros _.
    rewrite Heq, podsUsage_LargestMemory. apply Z.le_refl.
  - intros Heq. rewrite !podsUsage_LargestCPU, fold_left_app. simpl.
    apply track_keep. intros _.
    rewrite Heq, podsUsage_LargestCPU. apply Z.le_refl.
  - intros _ Heq. rewrite nodesCapacity_snoc, nodesCapacityStep_LargestAvailableCPU.
    rewrite Heq.
    destruct (Z.gtb_spec (readCPU (LargestAvailableCPU (nodesCapacity nodes pods)))
                (readCPU (LargestAvailableCPU (nodesCapacity nodes pods))));
      [lia | reflexivity].
  - intros _ Heq. rewrite nodesCapacity_snoc, nodesCapacityStep_LargestAvailableMemory.
    rewrite Heq.
    destruct (Z.gtb_spec (readMemory (LargestAvailableMemory (nodesCapacity nodes pods)))
                (readMemory (LargestAvailableMemory (nodesCapacity nodes pods))));
      [lia | reflexivity].
Qed.

Lemma tie_keeps_first_witness :
  LargestMemory (podsUsage ([pod100] ++ pod500 :: [pod300] ++ pod500' :: []))
  = podPair pod500
  /\ LargestCPU (podsUsage ([pod500] ++ pod100 :: [pod300] ++ pod30' :: []))
     = podPair pod100
  /\ LargestMemory (podsUsage ([pod500] ++ [pod500'])) = LargestMemory (podsUsage [pod500])
  /\ LargestCPU (podsUsage ([pod100] ++ [pod30'])) = LargestCPU (podsUsage [pod100])
  /\ LargestAvailableCPU (nodesCapacity ([nodeB] ++ [nodeC]) podsOnA)
     = LargestAvailableCPU (nodesCapacity [nodeB] podsOnA)
  /\ LargestAvailableMemory (nodesCapacity ([nodeB] ++ [nodeD]) podsOnA)
     = LargestAvailableMemory (nodesCapacity [nodeB] podsOnA).
Proof.
  repeat apply conj.
  - refine (proj1 (tie_keeps_first [pod100] [pod300] [] pod500 pod500' [] pod500 [] nodeA)
              eq_refl eq_refl eq_refl eq_refl _ _).
    + intros q [<- | []] _. reflexivity.
    + intros q [<- | []] _. vm_compute. discriminate.
  - refine (proj1 (proj2 (tie_keeps_first [pod500] [pod300] [] pod100 pod30' [] pod500
                            [] nodeA))
              eq_refl eq_refl eq_refl eq_refl _ _).
    + intros q [<- | []] _. reflexivity.
    + intros q [<- | []] _. vm_compute. discriminate.
  - refine (proj1 (proj2 (proj2 (tie_keeps_first [] [] [] pod500 pod500 [pod500] pod500'
                                   [] nodeA)))
              eq_refl).
  - refine (proj1 (proj2 (proj2 (proj2 (tie_keeps_first [] [] [] pod500 pod500 [pod100]
                                          pod30' [] nodeA))))
              eq_refl).
  - refine (proj1 (proj2 (proj2 (proj2 (proj2
              (tie_keeps_first [] [] [] pod500 pod500 podsOnA pod500 [nodeB] nodeC)))))
              _ eq_refl).
    intros n [<- | [<- | []]]; vm_compute; split; discriminate.
  - refine (proj2 (proj2 (proj2 (proj2 (proj2
              (tie_keeps_first [] [] [] pod500 pod500 podsOnA pod500 [nodeB] nodeD)))))
              _ eq_refl).
    intros n [<- | [<- | []]]; vm_compute; split; discriminate.
Defined.

(** ** mapPods *)

Lemma mapPodsStep_lookup (ret : gmap string (list v1.Pod)) (pod : v1.Pod) (name : string) :
  mapPodsStep ret pod !! name
  = if String.eqb (v1.NominatedNodeName (v1.Status pod)) name
    then Some (match ret !! name with Some val => val | None => [] end ++ [pod])
    else ret !! name.
Proof.
  unfold mapPodsStep.
  destruct (String.eqb_spec (v1.NominatedNodeName (v1.Status pod)) name) as [E|E].
  - subst name. destruct (ret !! v1.NominatedNodeName (v1.Status pod));
      rewrite lookup_insert_eq; reflexivity.
  - destruct (ret !! v1.NominatedNodeName (v1.Status pod));
      rewrite !lookup_insert_ne by exact E; reflexivity.
Qed.

Lemma fold_mapPodsStep_lookup (pods : list v1.Pod) (ret : gmap string (list v1.Pod))
  (name : string) :
  fold_left mapPodsStep pods ret !! name
  = match nominatedTo name pods with
    | [] => ret !! name
    | group => Some (match ret !! name with Some val => val | None => [] end ++ group)
    end.
Proof.
  revert ret. induction pods as [|pod pods IH]; intros ret; simpl; [reflexivity |].
  rewrite IH, mapPodsStep_lookup. unfold nominatedTo. simpl.
  destruct (String.eqb (v1.NominatedNodeName (v1.Status pod)) name).
  - destruct (List.filter _ pods); [reflexivity |].
    rewrite <- app_assoc. reflexivity.
  - reflexivity.
Qed.

Lemma mapPods_lookup (pods : list v1.Pod) (name : string) :
  mapPods pods !! name
  = match nominatedTo name pods with [] => None | group => Some group end.
Proof.
  unfold mapPods. rewrite fold_mapPodsStep_lookup, lookup_empty.
  destruct (nominatedTo name pods); reflexivity.
Qed.

Example mapPods_mixed :
  mapPods mixedPods !! "a" = Some [podOnA1; podOnA2]
  /\ mapPods mixedPods !! "b" = Some [podOnB]
  /\ mapPods mixedPods !! "" = Some [podNowhere1; podNowhere2]
  /\ mapPods mixedPods !! "c" = None.
Proof. repeat split; vm_compute; reflexivity. Qed.

(** C7. mapPods puts every supplied pod in exactly one group, the one keyed
    by its Status.NominatedNodeName: the group under a key holds the pods
    of the input with that nominated host, all of them and in input order
    (the pods with an empty nominated host under the empty key), and a key
    no pod nominates has no group. *)
Theorem mapPods_groups (pods : list v1.Pod) :
  (forall name,
     mapPods pods !! name
     = match nominatedTo name pods with [] => None | group => Some group end)
  /\ (forall pod name,
        In pod pods ->
        (exists group, mapPods pods !! name = Some group /\ In pod group)
        <-> name = v1.NominatedNodeName (v1.Status pod)).
Proof.
  split; [apply mapPods_lookup |].
  intros pod name Hin. rewrite mapPods_lookup. split.
  - intros (group & Hg & Hpod).
    assert (Hf : In pod (nominatedTo name pods)).
    { destruct (nominatedTo name pods); [discriminate Hg |].
      injection Hg as <-. exact Hpod. }
    apply filter_In in Hf. destruct Hf as [_ Hf].
    apply String.eqb_eq in Hf. symmetry. exact Hf.
  - intros ->.
    assert (Hf : In pod (nominatedTo (v1.NominatedNodeName (v1.Status pod)) pods)).
    { apply filter_In. split; [exact Hin | apply String.eqb_refl]. }
    destruct (nominatedTo _ pods) as [|p group]; [destruct Hf |].
    exists (p :: group). split; [reflexivity | exact Hf].
Qed.

Lemma mapPods_groups_witness :
  (exists group, mapPods mixedPods !! "" = Some group /\ In podNowhere2 group)
  /\ "a" = v1.NominatedNodeName (v1.Status podOnA2).
Proof.
  split.
  - apply (proj2 (mapPods_groups mixedPods) podNowhere2 "").
    + simpl. tauto.
    + reflexivity.
  - apply (proj2 (mapPods_groups mixedPods) podOnA2 "a").
    + simpl. tauto.
    + exists [podOnA1; podOnA2]. split; [vm_compute; reflexivity | simpl; tauto].
Defined.

(** ** isPodScheduled *)

Lemma isPodScheduledLoop_first (conditions : list v1.PodCondition) :
  isPodScheduledLoop conditions = true
  <-> exists l1 c l2,
        conditions = l1 ++ c :: l2
        /\ (forall d, In d l1 -> v1.Type_ d <> v1.PodScheduled)
        /\ v1.Type_ c = v1.PodScheduled
        /\ v1.Status_ c = v1.ConditionTrue.
Proof.
  induction conditions as [|c0 rest IH]; simpl.
  - split; [discriminate |].
    intros (l1 & c & l2 & E & _). destruct l1; discriminate E.
  - destruct (String.eqb_spec (v1.Type_ c0) v1.PodScheduled) as [T|T].
    + split.
      * intros S. apply String.eqb_eq in S.
        exists [], c0, rest. repeat split; [intros d [] | exact T | exact S].
      * intros (l1 & c & l2 & E & Hl1 & _ & S).
        destruct l1 as [|d l1]; simpl in E; injection E as -> _.
        -- apply String.eqb_eq. exact S.
        -- exfalso. apply (Hl1 d); [left; reflexivity | exact T].
    + rewrite IH. split.
      * intros (l1 & c & l2 & -> & Hl1 & Tc & S).
        exists (c0 :: l1), c, l2. repeat split; try assumption.
        intros d [<- | Hd]; [exact T | apply Hl1; exact Hd].
      * intros (l1 & c & l2 & E & Hl1 & Tc & S).
        destruct l1 as [|d l1]; simpl in E; injection E as -> ->.
        -- contradiction.
        -- exists l1, c, l2. repeat split; try assumption.
           intros d' Hd'. apply Hl1. right. exact Hd'.
Qed.

Lemma isPodScheduledLoop_contains (conditions : list v1.PodCondition) :
  isPodScheduledLoop conditions = true ->
  exists c, In c conditions
            /\ v1.Type_ c = v1.PodScheduled /\ v1.Status_ c = v1.ConditionTrue.
Proof.
  intros H. apply isPodScheduledLoop_first in H.
  destruct H as (l1 & c & l2 & -> & _ & T & S).
  exists c. split; [apply in_or_app; right; left; reflexivity | split; assumption].
Qed.

Lemma isPodScheduledLoop_unique (conditions : list v1.PodCondition) (c : v1.PodCondition) :
  (length (scheduledConditions conditions) <= 1)%nat ->
  In c conditions ->
  v1.Type_ c = v1.PodScheduled -> v1.Status_ c = v1.ConditionTrue ->
  isPodScheduledLoop conditions = true.
Proof.
  intros Hone Hin T S.
  induction conditions as [|c0 rest IH]; simpl in *; [destruct Hin |].
  destruct (String.eqb_spec (v1.Type_ c0) v1.PodScheduled) as [T0|T0].
  - destruct Hin as [<- | Hin]; [apply String.eqb_eq; exact S |].
    exfalso.
    assert (Hf : In c (scheduledConditions rest)).
    { apply filter_In. split; [exact Hin | apply String.eqb_eq; exact T]. }
    simpl in Hone. destruct (scheduledConditions rest); [destruct Hf | simpl in Hone; lia].
  - destruct Hin as [<- | Hin]; [contradiction |].
    apply IH; assumption.
Qed.

(** C4, as stated, fails: a pod whose condition list holds a PodScheduled
    condition with status False followed by one with status True contains a
    PodScheduled condition with status True, and isPodScheduled returns
    false, the answer of the first PodScheduled condition met. *)
Lemma scheduled_counterexample :
  ~ (forall pod : v1.Pod,
       isPodScheduled pod = true
       <-> exists c, In c (v1.Conditions (v1.Status pod))
                     /\ v1.Type_ c = v1.PodScheduled
                     /\ v1.Status_ c = v1.ConditionTrue).
Proof.
  intros H.
  assert (E : isPodScheduled twiceScheduledPod = true).
  { apply H.
    exists {| v1.Type_ := v1.PodScheduled; v1.Status_ := v1.ConditionTrue |}.
    repeat split. simpl. tauto. }
  vm_compute in E. discriminate E.
Qed.

(** C4, amended.  isPodScheduled returns true if and only if the first
    condition of type PodScheduled in the pod's condition list has status
    True; a pod with no condition of type PodScheduled is not scheduled, nor
    is one whose first such condition has another status (False, Unknown).
    When the list holds at most one condition of type PodScheduled, this is:
    true if and only if the list contains a PodScheduled condition with
    status True. *)
Theorem scheduled_iff_first (pod : v1.Pod) :
  let conditions := v1.Conditions (v1.Status pod) in
  (isPodScheduled pod = true
   <-> exists l1 c l2,
         conditions = l1 ++ c :: l2
         /\ (forall d, In d l1 -> v1.Type_ d <> v1.PodScheduled)
         /\ v1.Type_ c = v1.PodScheduled
         /\ v1.Status_ c = v1.ConditionTrue)
  /\ ((forall c, In c conditions -> v1.Type_ c <> v1.PodScheduled) ->
      isPodScheduled pod = false)
  /\ (forall l1 c l2,
        conditions = l1 ++ c :: l2 ->
        (forall d, In d l1 -> v1.Type_ d <> v1.PodScheduled) ->
        v1.Type_ c = v1.PodScheduled ->
        v1.Status_ c <> v1.ConditionTrue ->
        isPodScheduled pod = false)
  /\ ((length (scheduledConditions conditions) <= 1)%nat ->
      (isPodScheduled pod = true
       <-> exists c, In c conditions
                     /\ v1.Type_ c = v1.PodScheduled
                     /\ v1.Status_ c = v1.ConditionTrue)).
Proof.
  cbv zeta. unfold isPodScheduled.
  set (conditions := v1.Conditions (v1.Status pod)).
  split; [apply isPodScheduledLoop_first |].
  split; [| split].
  - intros Hnone.
    destruct (isPodScheduledLoop conditions) eqn:E; [| reflexivity].
    apply isPodScheduledLoop_contains in E. destruct E as (c & Hin & T & _).
    exfalso. exact (Hnone c Hin T).
  - intros l1 c l2 E Hl1 T S.
    destruct (isPodScheduledLoop conditions) eqn:L; [| reflexivity].
    exfalso. apply isPodScheduledLoop_first in L.
    destruct L as (l1' & c' & l2' & E' & Hl1' & T' & S').
    rewrite E in E'. clear E.
    revert l1' E' Hl1'.
    induction l1 as [|d l1 IH]; intros [|d' l1'] E' Hl1'; simpl in E'.
    + injection E' as -> _. contradiction.
    + injection E' as -> _. apply (Hl1' d'); [left; reflexivity | exact T].
    + injection E' as -> _. apply (Hl1 c'); [left; reflexivity | exact T'].
    + injection E' as -> E'.
      apply (IH (fun x Hx => Hl1 x (or_intror Hx)) l1' E').
      intros x Hx. apply Hl1'. right. exact Hx.
  - intros Hone. split; [apply isPodScheduledLoop_contains |].
    intros (c & Hin & T & S).
    exact (isPodScheduledLoop_unique conditions c Hone Hin T S).
Qed.

Lemma scheduled_iff_first_witness :
  isPodScheduled readyScheduledPod = true
  /\ isPodScheduled cpuOnlyPod = false
  /\ isPodScheduled twiceScheduledPod = false.
Proof.
  split; [| split].
  - apply (proj2 (proj2 (proj2 (proj2 (scheduled_iff_first readyScheduledPod)))
                    ltac:(simpl; lia))).
    exists {| v1.Type_ := v1.PodScheduled; v1.Status_ := v1.ConditionTrue |}.
    repeat split. simpl. tauto.
  - apply (proj1 (proj2 (scheduled_iff_first cpuOnlyPod))).
    intros c [].
  - apply (proj1 (proj2 (proj2 (scheduled_iff_first twiceScheduledPod)))
             []
             {| v1.Type_ := v1.PodScheduled; v1.Status_ := v1.ConditionFalse |}
             [ {| v1.Type_ := v1.PodScheduled; v1.Status_ := v1.ConditionTrue |} ]).
    + reflexivity.
    + intros d [].
    + reflexivity.
    + discriminate.
Defined.

(** * Further properties of the code *)

(** ** PodIsDaemonSet and PodIsStatic *)

(** PodIsDaemonSet returns true exactly when one of the pod's owner
    references has the kind "DaemonSet", wherever it stands in the list;
    a pod without owner references is not a daemon set pod. *)
Theorem PodIsDaemonSet_iff (pod : PodObject) :
  PodIsDaemonSet pod = true
  <-> exists ownerReference,
        In ownerReference (metav1.OwnerReferences (ObjectMeta pod))
        /\ metav1.Kind ownerReference = "DaemonSet".
Proof.
  unfold PodIsDaemonSet.
  induction (metav1.OwnerReferences (ObjectMeta pod)) as [|r rest IH]; simpl.
  - split; [discriminate | intros (r & [] & _)].
  - destruct (String.eqb_spec (metav1.Kind r) "DaemonSet") as [K|K].
    + split; [| reflexivity]. intros _. exists r. split; [left; reflexivity | exact K].
    + rewrite IH. split.
      * intros (r' & Hin & K'). exists r'. split; [right; exact Hin | exact K'].
      * intros (r' & [<- | Hin] & K'); [contradiction |].
        exists r'. split; assumption.
Qed.

(** PodIsStatic returns true exactly when the annotation
    "kubernetes.io/config.source" is present with the value "file"; it is
    false when the key is missing, and setting or removing any other
    annotation does not change the answer. *)
Theorem PodIsStatic_iff (pod : PodObject) :
  (PodIsStatic pod = true
   <-> metav1.Annotations (ObjectMeta pod) !! configSourceKey = Some "file")
  /\ (metav1.Annotations (ObjectMeta pod) !! configSourceKey = None ->
      PodIsStatic pod = false)
  /\ (forall key value owners,
        key <> configSourceKey ->
        PodIsStatic
          {| ObjectMeta :=
               {| metav1.OwnerReferences := owners;
                  metav1.Annotations :=
                    <[key := value]> (metav1.Annotations (ObjectMeta pod)) |};
             PodBody := PodBody pod |}
        = PodIsStatic pod
        /\ PodIsStatic
             {| ObjectMeta :=
                  {| metav1.OwnerReferences := owners;
                     metav1.Annotations :=
                       delete key (metav1.Annotations (ObjectMeta pod)) |};
                PodBody := PodBody pod |}
           = PodIsStatic pod).
Proof.
  unfold PodIsStatic. simpl.
  split; [| split; [| intros key value owners Hne; split]].
  - destruct (metav1.Annotations (ObjectMeta pod) !! configSourceKey) as [v|]; simpl.
    + rewrite String.eqb_eq.
      split; [intros H; rewrite H; reflexivity | intros H; injection H as H; exact H].
    + split; discriminate.
  - intros ->. reflexivity.
  - rewrite lookup_insert_ne by assumption. reflexivity.
  - rewrite lookup_delete_ne by assumption. reflexivity.
Qed.

Lemma PodIsStatic_iff_witness :
  PodIsStatic plainPod = false
  /\ PodIsStatic
       {| ObjectMeta :=
            {| metav1.OwnerReferences := [];
               metav1.Annotations :=
                 <["team" := "infra"]> (metav1.Annotations (ObjectMeta daemonStaticPod)) |};
          PodBody := PodBody daemonStaticPod |}
     = PodIsStatic daemonStaticPod.
Proof.
  split.
  - destruct (PodIsStatic plainPod) eqn:E; [| reflexivity].
    apply (proj1 (proj1 (PodIsStatic_iff plainPod))) in E.
    vm_compute in E. discriminate E.
  - apply (proj2 (proj2 (PodIsStatic_iff daemonStaticPod)) "team" "infra" []).
    discriminate.
Defined.

Lemma PodIsDaemonSet_iff_witness :
  PodIsDaemonSet daemonStaticPod = true.
Proof.
  apply (proj2 (PodIsDaemonSet_iff daemonStaticPod)).
  exists {| metav1.Kind := "DaemonSet"; metav1.RefName := "ds" |}.
  split; [simpl; tauto | reflexivity].
Defined.

(** ** Total of CalculatePodsRequestedUsage *)

Lemma Zsum_Permutation (l l' : list Z) : Permutation l l' -> Zsum l = Zsum l'.
Proof.
  induction 1 as [| x l l' _ IH | x y l | l l' l'' _ IH1 _ IH2]; simpl; lia.
Qed.

Lemma Zsum_nonneg (l : list Z) : (forall x, In x l -> 0 <= x) -> 0 <= Zsum l.
Proof.
  induction l as [|x l IH]; simpl; intros H; [lia |].
  pose proof (H x (or_introl eq_refl)).
  pose proof (IH (fun y Hy => H y (or_intror Hy))). lia.
Qed.

Lemma Zsum_In_le (l : list Z) (x : Z) :
  (forall y, In y l -> 0 <= y) -> In x l -> x <= Zsum l.
Proof.
  induction l as [|y l IH]; simpl; intros H Hin; [destruct Hin |].
  pose proof (H y (or_introl eq_refl)).
  pose proof (Zsum_nonneg l (fun z Hz => H z (or_intror Hz))).
  destruct Hin as [-> | Hin]; [lia |].
  pose proof (IH (fun z Hz => H z (or_intror Hz)) Hin). lia.
Qed.

(** Total is the sum of the extracted requests of all supplied pods,
    whatever their phase, conditions or nominated host, so it does not
    depend on the order of the input and the total of a concatenation is the
    sum of the totals. *)
Theorem total_sum_order_independent (pods pods' l1 l2 : list v1.Pod) :
  Total (podsUsage pods)
  = {| CPU := Zsum (map podCPU pods); Memory := Zsum (map podMemory pods) |}
  /\ (Permutation pods pods' -> Total (podsUsage pods') = Total (podsUsage pods))
  /\ Total (podsUsage (l1 ++ l2))
     = {| CPU := resource.Add (CPU (Total (podsUsage l1))) (CPU (Total (podsUsage l2)));
          Memory := resource.Add (Memory (Total (podsUsage l1)))
                      (Memory (Total (podsUsage l2))) |}.
Proof.
  split; [apply podsUsage_Total | split].
  - intros Hperm. rewrite !podsUsage_Total. f_equal.
    + apply Zsum_Permutation, Permutation_map, Permutation_sym, Hperm.
    + apply Zsum_Permutation, Permutation_map, Permutation_sym, Hperm.
  - rewrite !podsUsage_Total, !map_app, !Zsum_app. reflexivity.
Qed.

Lemma total_sum_order_independent_witness :
  Total (podsUsage [pod300; podRunning900; pod100; pod500])
  = Total (podsUsage [pod100; pod500; pod300; podRunning900]).
Proof.
  apply (proj1 (proj2 (total_sum_order_independent
                         [pod100; pod500; pod300; podRunning900]
                         [pod300; podRunning900; pod100; pod500] [] []))).
  exact (Permutation_app_comm [pod100; pod500] [pod300; podRunning900]).
Defined.

(** ** What the largest slots hold *)

Section TrackerBounds.

Variable key : v1.Pod -> Z.
Variable read : ResourceItem -> Z.
Hypothesis read_podPair : forall pod, read (podPair pod) = key pod.

#[local] Abbreviation track := (track key read).

Lemma track_read_le cur pod : read cur <= read (track cur pod).
Proof.
  unfold track.
  destruct (String.eqb _ _); [| lia].
  destruct (Z.gtb_spec (key pod) (read cur)); [rewrite read_podPair |]; lia.
Qed.

Lemma track_read_ge_key cur pod :
  isPending pod -> key pod <= read (track cur pod).
Proof.
  unfold track, isPending. intros ->. simpl.
  destruct (Z.gtb_spec (key pod) (read cur)); [rewrite read_podPair |]; lia.
Qed.

Lemma fold_track_read_le pods cur : read cur <= read (fold_left track pods cur).
Proof.
  revert cur. induction pods as [|pod pods IH]; intros cur; simpl; [lia |].
  pose proof (track_read_le cur pod). pose proof (IH (track cur pod)). lia.
Qed.

Lemma fold_track_upper pods cur q :
  In q pods -> isPending q -> key q <= read (fold_left track pods cur).
Proof.
  revert cur. induction pods as [|pod pods IH]; intros cur Hin Hp; simpl;
    [destruct Hin |].
  destruct Hin as [-> | Hin].
  - pose proof (track_read_ge_key cur q Hp).
    pose proof (fold_track_read_le pods (track cur q)). lia.
  - apply IH; assumption.
Qed.

Lemma fold_track_provenance pods cur :
  fold_left track pods cur = cur
  \/ exists q, In q pods /\ isPending q /\ read cur < key q
               /\ fold_left track pods cur = podPair q.
Proof.
  revert cur. induction pods as [|pod pods IH]; intros cur; simpl;
    [left; reflexivity |].
  destruct (IH (track cur pod)) as [E | (q & Hin & Hp & Hlt & E)].
  - rewrite E. unfold track.
    destruct (String.eqb_spec (v1.Phase (v1.Status pod)) v1.PodPending) as [P|P];
      [| left; reflexivity].
    destruct (Z.gtb_spec (key pod) (read cur)); [| left; reflexivity].
    right. exists pod. repeat split; [left; reflexivity | exact P | lia].
  - right. exists q. repeat split; [right; exact Hin | exact Hp | | exact E].
    pose proof (track_read_le cur pod). lia.
Qed.

End TrackerBounds.

Lemma podsUsage_largest_upper (pods : list v1.Pod) (q : v1.Pod) :
  0 <= readMemory (LargestMemory (podsUsage pods))
  /\ 0 <= readCPU (LargestCPU (podsUsage pods))
  /\ (In q pods -> isPending q ->
      podMemory q <= readMemory (LargestMemory (podsUsage pods))
      /\ podCPU q <= readCPU (LargestCPU (podsUsage pods))).
Proof.
  rewrite podsUsage_LargestMemory, podsUsage_LargestCPU.
  split; [| split].
  - apply (fold_track_read_le podMemory readMemory readMemory_podPair pods
             newEmptyResourceItem).
  - apply (fold_track_read_le podCPU readCPU readCPU_podPair pods
             newEmptyResourceItem).
  - intros Hin Hp. split.
    + apply (fold_track_upper podMemory readMemory readMemory_podPair); assumption.
    + apply (fold_track_upper podCPU readCPU readCPU_podPair); assumption.
Qed.

(** The reading of LargestMemory is never negative and is at least the
    memory request of every Pending pod of the input; likewise the reading
    of LargestCPU for the CPU requests. *)
Theorem largest_is_upper_bound (pods : list v1.Pod) (q : v1.Pod) :
  0 <= readMemory (LargestMemory (podsUsage pods))
  /\ 0 <= readCPU (LargestCPU (podsUsage pods))
  /\ (In q pods -> isPending q ->
      podMemory q <= readMemory (LargestMemory (podsUsage pods))
      /\ podCPU q <= readCPU (LargestCPU (podsUsage pods))).
Proof.
  rewrite podsUsage_LargestMemory, podsUsage_LargestCPU.
  split; [| split].
  - apply (fold_track_read_le podMemory readMemory readMemory_podPair pods
             newEmptyResourceItem).
  - apply (fold_track_read_le podCPU readCPU readCPU_podPair pods
             newEmptyResourceItem).
  - intros Hin Hp. split.
    + apply (fold_track_upper podMemory readMemory readMemory_podPair); assumption.
    + apply (fold_track_upper podCPU readCPU readCPU_podPair); assumption.
Qed.

Lemma largest_is_upper_bound_witness :
  podMemory pod300 <= readMemory (LargestMemory (podsUsage [pod100; pod500; pod300]))
  /\ podCPU pod300 <= readCPU (LargestCPU (podsUsage [pod100; pod500; pod300])).
Proof.
  apply (proj2 (proj2 (largest_is_upper_bound [pod100; pod500; pod300] pod300))).
  - simpl. tauto.
  - reflexivity.
Defined.

Lemma podsUsage_largest_provenance (pods : list v1.Pod) :
  (LargestMemory (podsUsage pods) = newEmptyResourceItem
   \/ exists q, In q pods /\ isPending q /\ 0 < podMemory q
                /\ LargestMemory (podsUsage pods) = podPair q)
  /\ (LargestCPU (podsUsage pods) = newEmptyResourceItem
      \/ exists q, In q pods /\ isPending q /\ 0 < podCPU q
                   /\ LargestCPU (podsUsage pods) = podPair q).
Proof.
  rewrite podsUsage_LargestMemory, podsUsage_LargestCPU. split.
  - apply (fold_track_provenance podMemory readMemory readMemory_podPair pods
             newEmptyResourceItem).
  - apply (fold_track_provenance podCPU readCPU readCPU_podPair pods
             newEmptyResourceItem).
Qed.

(** LargestMemory is either the initial zero pair or the full pair of one
    Pending pod of the input whose memory request is strictly positive; it
    is never the pair of a pod in another phase, nor the CPU of one pod with
    the memory of another.  The same holds for LargestCPU. *)
Theorem largest_is_a_pending_pair (pods : list v1.Pod) :
  (LargestMemory (podsUsage pods) = newEmptyResourceItem
   \/ exists q, In q pods /\ isPending q /\ 0 < podMemory q
                /\ LargestMemory (podsUsage pods) = podPair q)
  /\ (LargestCPU (podsUsage pods) = newEmptyResourceItem
      \/ exists q, In q pods /\ isPending q /\ 0 < podCPU q
                   /\ LargestCPU (podsUsage pods) = podPair q).
Proof.
  rewrite podsUsage_LargestMemory, podsUsage_LargestCPU. split.
  - apply (fold_track_provenance podMemory readMemory readMemory_podPair pods
             newEmptyResourceItem).
  - apply (fold_track_provenance podCPU readCPU readCPU_podPair pods
             newEmptyResourceItem).
Qed.

(** When no Pending pod requests a strictly positive amount of memory (in
    particular when no pod is Pending, or the input is empty), LargestMemory
    is the zero pair; likewise LargestCPU. *)
Theorem largest_zero_without_positive_pending (pods : list v1.Pod) :
  ((forall q, In q pods -> isPending q -> podMemory q <= 0) ->
   LargestMemory (podsUsage pods) = newEmptyResourceItem)
  /\ ((forall q, In q pods -> isPending q -> podCPU q <= 0) ->
      LargestCPU (podsUsage pods) = newEmptyResourceItem).
Proof.
  rewrite podsUsage_LargestMemory, podsUsage_LargestCPU. split; intros H.
  - apply fold_track_keep. exact H.
  - apply fold_track_keep. exact H.
Qed.

Lemma largest_zero_without_positive_pending_witness :
  LargestMemory (podsUsage [cpuOnlyPod; podRunning900]) = newEmptyResourceItem
  /\ LargestCPU (podsUsage [podRunning900]) = newEmptyResourceItem.
Proof.
  split.
  - apply (proj1 (largest_zero_without_positive_pending [cpuOnlyPod; podRunning900])).
    intros q [<- | [<- | []]] Hp; [vm_compute; discriminate | discriminate Hp].
  - apply (proj2 (largest_zero_without_positive_pending [podRunning900])).
    intros q [<- | []] Hp. discriminate Hp.
Defined.

(** The readings LargestMemory.Memory and LargestCPU.CPU do not depend on
    the order in which the pods are processed, ties included (with a tie the
    pair may differ, its compared component does not). *)
Theorem largest_reading_order_independent (pods pods' : list v1.Pod) :
  Permutation pods pods' ->
  readMemory (LargestMemory (podsUsage pods'))
  = readMemory (LargestMemory (podsUsage pods))
  /\ readCPU (LargestCPU (podsUsage pods')) = readCPU (LargestCPU (podsUsage pods)).
Proof.
  intros Hperm.
  assert (Hhalf : forall l l' : list v1.Pod,
             Permutation l l' ->
             readMemory (LargestMemory (podsUsage l))
               <= readMemory (LargestMemory (podsUsage l'))
             /\ readCPU (LargestCPU (podsUsage l)) <= readCPU (LargestCPU (podsUsage l'))).
  { intros l l' Hp.
    destruct (podsUsage_largest_provenance l) as [Hm Hc].
    split.
    - destruct Hm as [-> | (q & Hin & Hpend & _ & ->)].
      + exact (proj1 (podsUsage_largest_upper l' cpuOnlyPod)).
      + rewrite readMemory_podPair.
        exact (proj1 (proj2 (proj2 (podsUsage_largest_upper l' q))
                        (Permutation_in q Hp Hin) Hpend)).
    - destruct Hc as [-> | (q & Hin & Hpend & _ & ->)].
      + exact (proj1 (proj2 (podsUsage_largest_upper l' cpuOnlyPod))).
      + rewrite readCPU_podPair.
        exact (proj2 (proj2 (proj2 (podsUsage_largest_upper l' q))
                        (Permutation_in q Hp Hin) Hpend)). }
  destruct (Hhalf pods pods' Hperm) as [Hm1 Hc1].
  destruct (Hhalf pods' pods (Permutation_sym Hperm)) as [Hm2 Hc2].
  split; lia.
Qed.

Lemma largest_reading_order_independent_witness :
  readMemory (LargestMemory (podsUsage [pod300; pod500'; pod100; pod500]))
  = readMemory (LargestMemory (podsUsage [pod100; pod500; pod300; pod500']))
  /\ readCPU (LargestCPU (podsUsage [pod300; pod500'; pod100; pod500]))
     = readCPU (LargestCPU (podsUsage [pod100; pod500; pod300; pod500'])).
Proof.
  apply (largest_reading_order_independent [pod100; pod500; pod300; pod500']
           [pod300; pod500'; pod100; pod500]).
  exact (Permutation_app_comm [pod100; pod500] [pod300; pod500']).
Defined.

(** With a tie the pair does depend on the order: the first of the tied
    pods is kept. *)
Example largest_pair_order_dependent :
  LargestMemory (podsUsage [pod500; pod500']) = podPair pod500
  /\ LargestMemory (podsUsage [pod500'; pod500]) = podPair pod500'
  /\ podPair pod500 <> podPair pod500'.
Proof. repeat split; vm_compute; try reflexivity; discriminate. Qed.

(** Processing further pods never lowers the readings of LargestMemory and
    LargestCPU. *)
Theorem largest_reading_grows (pods more : list v1.Pod) :
  readMemory (LargestMemory (podsUsage pods))
    <= readMemory (LargestMemory (podsUsage (pods ++ more)))
  /\ readCPU (LargestCPU (podsUsage pods))
     <= readCPU (LargestCPU (podsUsage (pods ++ more))).
Proof.
  rewrite !podsUsage_LargestMemory, !podsUsage_LargestCPU, !fold_left_app. split.
  - apply (fold_track_read_le podMemory readMemory readMemory_podPair).
  - apply (fold_track_read_le podCPU readCPU readCPU_podPair).
Qed.

(** When every pod's extracted request is non-negative, the readings of
    LargestMemory and LargestCPU do not exceed Total.Memory and Total.CPU. *)
Theorem largest_le_total (pods : list v1.Pod) :
  (forall q, In q pods -> 0 <= podCPU q /\ 0 <= podMemory q) ->
  readMemory (LargestMemory (podsUsage pods)) <= Memory (Total (podsUsage pods))
  /\ readCPU (LargestCPU (podsUsage pods)) <= CPU (Total (podsUsage pods)).
Proof.
  intros Hnonneg.
  assert (Hc : forall x, In x (map podCPU pods) -> 0 <= x).
  { intros x Hx. apply in_map_iff in Hx. destruct Hx as (q & <- & Hq).
    apply Hnonneg, Hq. }
  assert (Hm : forall x, In x (map podMemory pods) -> 0 <= x).
  { intros x Hx. apply in_map_iff in Hx. destruct Hx as (q & <- & Hq).
    apply Hnonneg, Hq. }
  destruct (podsUsage_largest_provenance pods) as [HM HC].
  rewrite podsUsage_Total. simpl. split.
  - destruct HM as [-> | (q & Hin & _ & _ & ->)].
    + apply (Zsum_nonneg _ Hm).
    + rewrite readMemory_podPair. apply (Zsum_In_le _ _ Hm), in_map, Hin.
  - destruct HC as [-> | (q & Hin & _ & _ & ->)].
    + apply (Zsum_nonneg _ Hc).
    + rewrite readCPU_podPair. apply (Zsum_In_le _ _ Hc), in_map, Hin.
Qed.

Lemma largest_le_total_witness :
  readMemory (LargestMemory (podsUsage [pod100; pod500]))
    <= Memory (Total (podsUsage [pod100; pod500]))
  /\ readCPU (LargestCPU (podsUsage [pod100; pod500]))
     <= CPU (Total (podsUsage [pod100; pod500])).
Proof.
  apply (largest_le_total [pod100; pod500]).
  intros q [<- | [<- | []]]; vm_compute; split; discriminate.
Defined.

(** ** sumByFunc *)

Lemma add64_range (a b : Z) : int64_range (add64 a b).
Proof. apply wrap64_range. Qed.

Lemma fold_sumByFunc_range (f : v1.Pod -> Z) (pods : list v1.Pod) (ret : Z) :
  int64_range ret ->
  int64_range
    (fold_left
       (fun ret pod => if isPodUsingNodeResources pod then add64 ret (f pod) else ret)
       pods ret).
Proof.
  revert ret. induction pods as [|pod pods IH]; intros ret Hr; simpl; [exact Hr |].
  apply IH. destruct (isPodUsingNodeResources pod); [apply add64_range | exact Hr].
Qed.

Lemma sumByFunc_range (f : v1.Pod -> Z) (pods : list v1.Pod) :
  int64_range (sumByFunc pods f).
Proof.
  apply fold_sumByFunc_range.
  unfold int64_range, int64_min, int64_max. pow64. lia.
Qed.

Lemma sumByFunc_eq_wrap (f : v1.Pod -> Z) (pods : list v1.Pod) :
  sumByFunc pods f
  = wrap64 (Zsum (map f (List.filter isPodUsingNodeResources pods))).
Proof.
  rewrite <- sumByFunc_wrap. symmetry. apply wrap64_id, sumByFunc_range.
Qed.

(** sumByFunc returns the sum of [f] over the pods that pass
    isPodUsingNodeResources, as an [int64]: the sum reduced modulo 2^64, and
    the sum itself whenever it fits an [int64], even when a partial sum
    overflowed on the way. *)
Theorem sumByFunc_sum (f : v1.Pod -> Z) (pods : list v1.Pod) :
  let exact := Zsum (map f (List.filter isPodUsingNodeResources pods)) in
  sumByFunc pods f = wrap64 exact
  /\ (int64_range exact -> sumByFunc pods f = exact).
Proof.
  cbv zeta. split; [apply sumByFunc_eq_wrap |].
  intros Hr. rewrite sumByFunc_eq_wrap. apply wrap64_id, Hr.
Qed.

Lemma sumByFunc_sum_witness :
  sumByFunc
    [ examplePod v1.PodRunning scheduledTrue "n1" int64_max 0;
      examplePod v1.PodSucceeded scheduledTrue "n1" 700 0;
      examplePod v1.PodPending scheduledTrue "n1" 5 0;
      examplePod v1.PodRunning scheduledTrue "n1" (- 10) 0 ]
    podCPU
  = int64_max - 5.
Proof.
  refine (eq_trans
            (proj2 (sumByFunc_sum podCPU
                      [ examplePod v1.PodRunning scheduledTrue "n1" int64_max 0;
                        examplePod v1.PodSucceeded scheduledTrue "n1" 700 0;
                        examplePod v1.PodPending scheduledTrue "n1" 5 0;
                        examplePod v1.PodRunning scheduledTrue "n1" (- 10) 0 ]) _) _).
  - vm_compute. split; discriminate.
  - vm_compute. reflexivity.
Defined.

(** A pod that fails isPodUsingNodeResources (not scheduled, or in a phase
    other than Pending and Running) contributes nothing to sumByFunc,
    wherever it stands in the list; a pod that passes is added with an
    [int64] addition. *)
Theorem sumByFunc_gate (f : v1.Pod -> Z) (l1 l2 : list v1.Pod) (pod : v1.Pod) :
  (isPodUsingNodeResources pod = false ->
   sumByFunc (l1 ++ pod :: l2) f = sumByFunc (l1 ++ l2) f)
  /\ (isPodUsingNodeResources pod = true ->
      sumByFunc (l1 ++ [pod]) f = add64 (sumByFunc l1 f) (f pod)).
Proof.
  unfold sumByFunc. rewrite !fold_left_app. simpl. split; intros ->; reflexivity.
Qed.

Lemma sumByFunc_gate_witness :
  sumByFunc ([hugePod] ++ examplePod v1.PodFailed scheduledTrue "n1" 700 0 :: [hugePod])
    podCPU
  = sumByFunc ([hugePod] ++ [hugePod]) podCPU
  /\ sumByFunc ([hugePod] ++ [hugePod]) podCPU = add64 (sumByFunc [hugePod] podCPU) int64_max.
Proof.
  split.
  - apply (proj1 (sumByFunc_gate podCPU [hugePod] [hugePod]
                    (examplePod v1.PodFailed scheduledTrue "n1" 700 0))).
    reflexivity.
  - apply (proj2 (sumByFunc_gate podCPU [hugePod] [] hugePod)). reflexivity.
Defined.

(** isPodUsingNodeResources holds exactly for the pods that are scheduled
    and whose phase is "Pending" or "Running"; a pod in any other phase (for
    instance Succeeded, Failed, Unknown or the empty phase) or without a
    PodScheduled condition fails it. *)
Theorem isPodUsingNodeResources_iff (pod : v1.Pod) :
  (isPodUsingNodeResources pod = true
   <-> isPodScheduled pod = true
       /\ (v1.Phase (v1.Status pod) = v1.PodPending
           \/ v1.Phase (v1.Status pod) = v1.PodRunning))
  /\ (v1.Phase (v1.Status pod) <> v1.PodPending ->
      v1.Phase (v1.Status pod) <> v1.PodRunning ->
      isPodUsingNodeResources pod = false)
  /\ ((forall c, In c (v1.Conditions (v1.Status pod)) ->
                 v1.Type_ c <> v1.PodScheduled) ->
      isPodUsingNodeResources pod = false).
Proof.
  unfold isPodUsingNodeResources.
  split; [| split].
  - rewrite andb_true_iff, orb_true_iff, !String.eqb_eq. reflexivity.
  - intros H1 H2.
    destruct (String.eqb_spec (v1.Phase (v1.Status pod)) v1.PodPending); [contradiction |].
    destruct (String.eqb_spec (v1.Phase (v1.Status pod)) v1.PodRunning); [contradiction |].
    apply andb_false_r.
  - intros Hnone.
    assert (E : isPodScheduled pod = false).
    { unfold isPodScheduled.
      destruct (isPodScheduledLoop (v1.Conditions (v1.Status pod))) eqn:L; [| reflexivity].
      apply isPodScheduledLoop_contains in L. destruct L as (c & Hin & T & _).
      exfalso. exact (Hnone c Hin T). }
    rewrite E. reflexivity.
Qed.

Lemma isPodUsingNodeResources_iff_witness :
  isPodUsingNodeResources (examplePod v1.PodSucceeded scheduledTrue "n1" 700 0) = false
  /\ isPodUsingNodeResources cpuOnlyPod = false.
Proof.
  split.
  - apply (proj1 (proj2 (isPodUsingNodeResources_iff
                           (examplePod v1.PodSucceeded scheduledTrue "n1" 700 0))));
      discriminate.
  - apply (proj2 (proj2 (isPodUsingNodeResources_iff cpuOnlyPod))).
    intros c [].
Defined.

(** ** GetNodeAvailableResources *)

Lemma Zsum_filter_none (f : v1.Pod -> Z) (pods : list v1.Pod) :
  (forall pod, In pod pods -> isPodUsingNodeResources pod = false) ->
  List.filter isPodUsingNodeResources pods = [].
Proof.
  induction pods as [|pod pods IH]; simpl; intros H; [reflexivity |].
  rewrite (H pod (or_introl eq_refl)). apply IH.
  intros q Hq. apply H. right. exact Hq.
Qed.

Lemma nodePair_newResourceItem (node : v1.Node) :
  newResourceItem (allocatableCPU node) (allocatableMemory node) = nodePair node.
Proof. reflexivity. Qed.

(** When the grouping has no entry for the node's name, or every pod
    grouped under it fails isPodUsingNodeResources, nothing is subtracted:
    for a node whose allocatable readings are [int64] values the available
    pair is the allocatable pair. *)
Theorem node_available_when_unused (node : v1.Node) (pods : gmap string (list v1.Pod)) :
  int64_range (allocatableCPU node) ->
  int64_range (allocatableMemory node) ->
  (pods !! v1.Name node = None ->
   GetNodeAvailableResources node pods = nodePair node)
  /\ ((forall pod, In pod (groupOf node pods) -> isPodUsingNodeResources pod = false) ->
      GetNodeAvailableResources node pods = nodePair node).
Proof.
  intros Hc Hm.
  assert (Hgen : (forall pod, In pod (groupOf node pods) ->
                              isPodUsingNodeResources pod = false) ->
                 GetNodeAvailableResources node pods = nodePair node).
  { intros Hnone. rewrite GetNodeAvailableResources_wrap. unfold usedBy.
    rewrite (Zsum_filter_none podCPU _ Hnone). simpl.
    rewrite !Z.sub_0_r, (wrap64_id _ Hc), (wrap64_id _ Hm).
    apply nodePair_newResourceItem. }
  split; [| exact Hgen].
  intros Hmiss. apply Hgen. unfold groupOf. rewrite Hmiss. intros pod [].
Qed.

Lemma node_available_when_unused_witness :
  GetNodeAvailableResources node2 (mapPods podsOnA) = nodePair node2
  /\ GetNodeAvailableResources node2 (mapPods idlePodsOn2) = nodePair node2.
Proof.
  assert (Hc : int64_range (allocatableCPU node2)) by (vm_compute; split; discriminate).
  assert (Hm : int64_range (allocatableMemory node2)) by (vm_compute; split; discriminate).
  split.
  - apply (proj1 (node_available_when_unused node2 (mapPods podsOnA) Hc Hm)).
    vm_compute. reflexivity.
  - apply (proj2 (node_available_when_unused node2 (mapPods idlePodsOn2) Hc Hm)).
    intros pod Hin. vm_compute in Hin.
    destruct Hin as [<- | [<- | []]]; reflexivity.
Defined.

(** ** mapPods and the node's group *)

Lemma groupOf_mapPods (node : v1.Node) (pods : list v1.Pod) :
  groupOf node (mapPods pods) = nominatedTo (v1.Name node) pods.
Proof.
  unfold groupOf. rewrite mapPods_lookup.
  destruct (nominatedTo (v1.Name node) pods); reflexivity.
Qed.

Lemma nominatedTo_skip (name : string) (l1 l2 : list v1.Pod) (pod : v1.Pod) :
  v1.NominatedNodeName (v1.Status pod) <> name ->
  nominatedTo name (l1 ++ pod :: l2) = nominatedTo name (l1 ++ l2).
Proof.
  intros Hne. unfold nominatedTo. rewrite !List.filter_app. simpl.
  destruct (String.eqb_spec (v1.NominatedNodeName (v1.Status pod)) name);
    [contradiction | reflexivity].
Qed.

Lemma GetNodeAvailableResources_group (node : v1.Node)
  (pods pods' : gmap string (list v1.Pod)) :
  groupOf node pods = groupOf node pods' ->
  GetNodeAvailableResources node pods = GetNodeAvailableResources node pods'.
Proof.
  intros E. rewrite !GetNodeAvailableResources_wrap. unfold usedBy. rewrite E.
  reflexivity.
Qed.



(** ** The groups of mapPods *)

Lemma mapPodsStep_insert (ret : gmap string (list v1.Pod)) (pod : v1.Pod) :
  mapPodsStep ret pod
  = <[v1.NominatedNodeName (v1.Status pod) :=
        match ret !! v1.NominatedNodeName (v1.Status pod) with
        | Some val => val
        | None => []
        end ++ [pod]]> ret.
Proof.
  unfold mapPodsStep.
  destruct (ret !! v1.NominatedNodeName (v1.Status pod)); [reflexivity |].
  apply insert_insert_eq.
Qed.

Lemma mapPods_snoc (pods : list v1.Pod) (pod : v1.Pod) :
  mapPods (pods ++ [pod]) = mapPodsStep (mapPods pods) pod.
Proof. unfold mapPods. rewrite fold_left_app. reflexivity. Qed.

Lemma nominatedTo_In (name : string) (pods : list v1.Pod) (pod : v1.Pod) :
  In pod (nominatedTo name pods)
  <-> In pod pods /\ v1.NominatedNodeName (v1.Status pod) = name.
Proof. unfold nominatedTo. rewrite filter_In, String.eqb_eq. reflexivity. Qed.

(** mapPods has a group for a name exactly when some pod of the input is
    nominated to it; no group is empty, every pod of a group is a pod of the
    input nominated to the group's key, and the empty input gives the empty
    map. *)
Theorem mapPods_keys (pods : list v1.Pod) (name : string) :
  mapPods [] = ∅
  /\ (is_Some (mapPods pods !! name)
      <-> exists pod, In pod pods /\ v1.NominatedNodeName (v1.Status pod) = name)
  /\ (forall group,
        mapPods pods !! name = Some group ->
        group <> []
        /\ forall pod, In pod group ->
                       In pod pods /\ v1.NominatedNodeName (v1.Status pod) = name).
Proof.
  split; [reflexivity |]. rewrite mapPods_lookup. split.
  - split.
    + intros [group Hg].
      destruct (nominatedTo name pods) as [|p g] eqn:E; [discriminate Hg |].
      exists p. apply nominatedTo_In. rewrite E. left. reflexivity.
    + intros (pod & Hin & Hname).
      assert (Hf : In pod (nominatedTo name pods)) by (apply nominatedTo_In; tauto).
      destruct (nominatedTo name pods); [destruct Hf | eexists; reflexivity].
  - intros group Hg.
    destruct (nominatedTo name pods) as [|p g] eqn:E; [discriminate Hg |].
    injection Hg as <-. split; [discriminate |].
    intros pod Hin. apply nominatedTo_In. rewrite E. exact Hin.
Qed.

Lemma mapPods_keys_witness :
  is_Some (mapPods mixedPods !! "b")
  /\ ([podNowhere1; podNowhere2] <> []
      /\ forall pod, In pod [podNowhere1; podNowhere2] ->
                     In pod mixedPods /\ v1.NominatedNodeName (v1.Status pod) = "").
Proof.
  split.
  - apply (proj1 (proj2 (mapPods_keys mixedPods "b"))).
    exists podOnB. split; [simpl; tauto | reflexivity].
  - apply (proj2 (proj2 (mapPods_keys mixedPods ""))).
    vm_compute. reflexivity.
Defined.

(** Grouping loses and invents nothing: the groups of mapPods, put end to end,
    are a rearrangement of the input list. *)
Theorem mapPods_conserves (pods : list v1.Pod) :
  Permutation (concat (map snd (map_to_list (mapPods pods)))) pods.
Proof.
  induction pods as [|pod pods IH] using rev_ind.
  - unfold mapPods. simpl. rewrite map_to_list_empty. constructor.
  - rewrite mapPods_snoc, mapPodsStep_insert.
    set (name := v1.NominatedNodeName (v1.Status pod)).
    set (m := mapPods pods) in *.
    destruct (m !! name) as [val|] eqn:E.
    + rewrite <- (insert_delete_eq m).
      rewrite map_to_list_insert by apply lookup_delete_eq.
      rewrite <- (insert_delete_id m name val E) in IH.
      rewrite map_to_list_insert in IH by apply lookup_delete_eq.
      simpl in *. rewrite <- app_assoc.
      apply Permutation_trans
        with (l' := (val ++ concat (map snd (map_to_list (delete name m)))) ++ [pod]).
      * rewrite <- app_assoc. apply Permutation_app_head, Permutation_app_comm.
      * apply Permutation_app_tail, IH.
    + rewrite map_to_list_insert by exact E.
      simpl. apply Permutation_trans with (l' := pod :: pods).
      * constructor. exact IH.
      * apply Permutation_cons_append.
Qed.

(** Grouping a concatenation: the group of a name is the group from the
    first list followed by the group from the second. *)
Theorem mapPods_app (l1 l2 : list v1.Pod) (name : string) :
  match mapPods (l1 ++ l2) !! name with Some group => group | None => [] end
  = match mapPods l1 !! name with Some group => group | None => [] end
    ++ match mapPods l2 !! name with Some group => group | None => [] end.
Proof.
  rewrite !mapPods_lookup. unfold nominatedTo. rewrite List.filter_app.
  destruct (List.filter _ l1), (List.filter _ l2); simpl;
    rewrite ?app_nil_r; reflexivity.
Qed.

(** ** The slots of CalculateNodesCapacity *)

Section NodeSlot.

Variable mapped : gmap string (list v1.Pod).
Variable available : v1.Node -> Z.
Variable allocatable : v1.Node -> Z.
Variable slot : NodeAvailableCapacity -> ResourceItem.
Variable read : ResourceItem -> Z.
Hypothesis read_nodePair : forall node, read (nodePair node) = allocatable node.
Hypothesis slot_step : forall ret node,
  slot (nodesCapacityStep mapped ret node)
  = if available node >? read (slot ret) then nodePair node else slot ret.

#[local] Abbreviation run := (fold_left (nodesCapacityStep mapped)).

Lemma run_slot_keep nodes ret :
  (forall node, In node nodes -> available node <= read (slot ret)) ->
  slot (run nodes ret) = slot ret.
Proof.
  revert ret. induction nodes as [|node nodes IH]; intros ret H; simpl; [reflexivity |].
  assert (E : slot (nodesCapacityStep mapped ret node) = slot ret).
  { rewrite slot_step.
    destruct (Z.gtb_spec (available node) (read (slot ret))); [| reflexivity].
    pose proof (H node (or_introl eq_refl)). lia. }
  rewrite IH; [exact E |].
  intros n Hn. rewrite E. apply H. right. exact Hn.
Qed.

Lemma run_slot_provenance nodes ret :
  slot (run nodes ret) = slot ret
  \/ exists node, In node nodes /\ slot (run nodes ret) = nodePair node.
Proof.
  revert ret. induction nodes as [|node nodes IH]; intros ret; simpl;
    [left; reflexivity |].
  destruct (IH (nodesCapacityStep mapped ret node)) as [E | (n & Hin & E)].
  - rewrite E, slot_step.
    destruct (available node >? read (slot ret)); [| left; reflexivity].
    right. exists node. split; [left; reflexivity | reflexivity].
  - right. exists n. split; [right; exact Hin | exact E].
Qed.

Lemma run_slot_upper nodes ret :
  (forall node, In node nodes -> available node <= allocatable node) ->
  read (slot ret) <= read (slot (run nodes ret))
  /\ forall node, In node nodes -> available node <= read (slot (run nodes ret)).
Proof.
  revert ret. induction nodes as [|node nodes IH]; intros ret H; simpl.
  - split; [lia | intros node []].
  - destruct (IH (nodesCapacityStep mapped ret node)
                (fun n Hn => H n (or_intror Hn))) as [Hmono Hup].
    pose proof (H node (or_introl eq_refl)) as Hle.
    assert (Hstep : read (slot ret) <= read (slot (nodesCapacityStep mapped ret node))
                    /\ available node <= read (slot (nodesCapacityStep mapped ret node))).
    { rewrite slot_step.
      destruct (Z.gtb_spec (available node) (read (slot ret)));
        [rewrite read_nodePair |]; lia. }
    split; [lia |].
    intros n [<- | Hn]; [lia | apply Hup, Hn].
Qed.

Lemma run_slot_below nodes ret bound :
  read (slot ret) < bound ->
  (forall node, In node nodes -> allocatable node < bound) ->
  read (slot (run nodes ret)) < bound.
Proof.
  revert ret. induction nodes as [|node nodes IH]; intros ret Hr H; simpl; [exact Hr |].
  apply IH; [| intros n Hn; apply H; right; exact Hn].
  rewrite slot_step. destruct (available node >? read (slot ret)); [| exact Hr].
  rewrite read_nodePair. apply H. left. reflexivity.
Qed.

Lemma run_slot_first l1 node l2 ret :
  read (slot ret) < available node ->
  (forall n, In n l1 -> allocatable n < available node) ->
  (forall n, In n l2 -> available n <= allocatable node) ->
  slot (run (l1 ++ node :: l2) ret) = nodePair node.
Proof.
  intros Hr H1 H2. rewrite fold_left_app. simpl.
  assert (E : slot (nodesCapacityStep mapped (run l1 ret) node) = nodePair node).
  { rewrite slot_step.
    pose proof (run_slot_below l1 ret (available node) Hr H1).
    destruct (Z.gtb_spec (available node) (read (slot (run l1 ret))));
      [reflexivity | lia]. }
  rewrite run_slot_keep; [exact E |].
  intros n Hn. rewrite E, read_nodePair. apply H2, Hn.
Qed.

End NodeSlot.

Lemma readCPU_nodePair node : readCPU (nodePair node) = allocatableCPU node.
Proof. reflexivity. Qed.

Lemma readMemory_nodePair node : readMemory (nodePair node) = allocatableMemory node.
Proof. reflexivity. Qed.

Lemma slot_step_CPU mapped ret node :
  LargestAvailableCPU (nodesCapacityStep mapped ret node)
  = if availableCPU mapped node >? readCPU (LargestAvailableCPU ret)
    then nodePair node else LargestAvailableCPU ret.
Proof. reflexivity. Qed.

Lemma slot_step_Memory mapped ret node :
  LargestAvailableMemory (nodesCapacityStep mapped ret node)
  = if availableMemory mapped node >? readMemory (LargestAvailableMemory ret)
    then nodePair node else LargestAvailableMemory ret.
Proof. reflexivity. Qed.

Lemma nodesCapacity_run (nodes : list v1.Node) (pods : list v1.Pod) :
  nodesCapacity nodes pods
  = fold_left (nodesCapacityStep (mapPods pods)) nodes newNodeAvailableCapacity.
Proof. reflexivity. Qed.

Lemma nodesCapacity_NTotal (nodes : list v1.Node) (pods : list v1.Pod) :
  NTotal (nodesCapacity nodes pods)
  = {| CPU := Zsum (map allocatableCPU nodes);
       Memory := Zsum (map allocatableMemory nodes) |}.
Proof. rewrite nodesCapacity_run, fold_nodesCapacityStep_NTotal. reflexivity. Qed.

(** Total of CalculateNodesCapacity is the sum of the allocatable CPU and
    memory of all supplied nodes: it does not depend on the pods, nor on the
    order of the nodes. *)
Theorem nodes_total_independent
  (nodes nodes' : list v1.Node) (pods pods' : list v1.Pod) :
  NTotal (nodesCapacity nodes pods) = NTotal (nodesCapacity nodes pods')
  /\ (Permutation nodes nodes' ->
      NTotal (nodesCapacity nodes' pods') = NTotal (nodesCapacity nodes pods)).
Proof.
  rewrite !nodesCapacity_NTotal. split; [reflexivity |].
  intros Hperm. f_equal;
    apply Zsum_Permutation, Permutation_map, Permutation_sym, Hperm.
Qed.

Lemma nodes_total_independent_witness :
  NTotal (nodesCapacity [nodeC; nodeA; nodeB] podsFilling)
  = NTotal (nodesCapacity [nodeA; nodeB; nodeC] podsOnA).
Proof.
  apply (proj2 (nodes_total_independent [nodeA; nodeB; nodeC] [nodeC; nodeA; nodeB]
                  podsOnA podsFilling)).
  exact (Permutation_app_comm [nodeA; nodeB] [nodeC]).
Defined.

(** LargestAvailableCPU and LargestAvailableMemory are each either the
    initial zero pair or the full allocatable pair of one of the supplied
    nodes. *)
Theorem nodes_largest_is_a_node_pair (nodes : list v1.Node) (pods : list v1.Pod) :
  (LargestAvailableCPU (nodesCapacity nodes pods) = newEmptyResourceItem
   \/ exists node, In node nodes
                   /\ LargestAvailableCPU (nodesCapacity nodes pods) = nodePair node)
  /\ (LargestAvailableMemory (nodesCapacity nodes pods) = newEmptyResourceItem
      \/ exists node, In node nodes
                      /\ LargestAvailableMemory (nodesCapacity nodes pods) = nodePair node).
Proof.
  rewrite nodesCapacity_run. split.
  - apply (run_slot_provenance (mapPods pods) (availableCPU (mapPods pods))
             LargestAvailableCPU readCPU (slot_step_CPU (mapPods pods))).
  - apply (run_slot_provenance (mapPods pods) (availableMemory (mapPods pods))
             LargestAvailableMemory readMemory (slot_step_Memory (mapPods pods))).
Qed.

(** For nodes whose allocatable CPU fits an [int64]: when no node has
    strictly positive available CPU (every node is full or over-committed),
    LargestAvailableCPU stays the zero pair; likewise LargestAvailableMemory
    for nodes whose allocatable memory fits an [int64]. *)
Theorem nodes_largest_zero_when_full (nodes : list v1.Node) (pods : list v1.Pod) :
  ((forall node, In node nodes -> int64_range (allocatableCPU node)) ->
   (forall node, In node nodes -> availableCPU (mapPods pods) node <= 0) ->
   LargestAvailableCPU (nodesCapacity nodes pods) = newEmptyResourceItem)
  /\ ((forall node, In node nodes -> int64_range (allocatableMemory node)) ->
      (forall node, In node nodes -> availableMemory (mapPods pods) node <= 0) ->
      LargestAvailableMemory (nodesCapacity nodes pods) = newEmptyResourceItem).
Proof.
  rewrite nodesCapacity_run. split; intros _ H.
  - apply (run_slot_keep (mapPods pods) (availableCPU (mapPods pods))
             LargestAvailableCPU readCPU (slot_step_CPU (mapPods pods))). exact H.
  - apply (run_slot_keep (mapPods pods) (availableMemory (mapPods pods))
             LargestAvailableMemory readMemory (slot_step_Memory (mapPods pods))). exact H.
Qed.

Lemma nodes_largest_zero_when_full_witness :
  LargestAvailableCPU (nodesCapacity [nodeFull; nodeOver] podsFilling)
  = newEmptyResourceItem
  /\ LargestAvailableMemory (nodesCapacity [nodeFull; nodeOver] podsFilling)
     = newEmptyResourceItem.
Proof.
  split.
  - apply (proj1 (nodes_largest_zero_when_full [nodeFull; nodeOver] podsFilling)).
    + intros node [<- | [<- | []]]; vm_compute; split; discriminate.
    + intros node [<- | [<- | []]]; vm_compute; discriminate.
  - apply (proj2 (nodes_largest_zero_when_full [nodeFull; nodeOver] podsFilling)).
    + intros node [<- | [<- | []]]; vm_compute; split; discriminate.
    + intros node [<- | [<- | []]]; vm_compute; discriminate.
Defined.

(** For nodes whose allocatable amounts fit an [int64]: when no node's
    available amount exceeds its allocatable amount (as when the requests
    counted against it are non-negative and nothing overflows),
    LargestAvailableCPU.CPU is non-negative and at least the available CPU
    of every supplied node; likewise for memory. *)
Theorem nodes_largest_upper_bound (nodes : list v1.Node) (pods : list v1.Pod) :
  ((forall node, In node nodes -> int64_range (allocatableCPU node)) ->
   (forall node, In node nodes ->
                 availableCPU (mapPods pods) node <= allocatableCPU node) ->
   0 <= readCPU (LargestAvailableCPU (nodesCapacity nodes pods))
   /\ forall node, In node nodes ->
        availableCPU (mapPods pods) node
          <= readCPU (LargestAvailableCPU (nodesCapacity nodes pods)))
  /\ ((forall node, In node nodes -> int64_range (allocatableMemory node)) ->
      (forall node, In node nodes ->
                    availableMemory (mapPods pods) node <= allocatableMemory node) ->
      0 <= readMemory (LargestAvailableMemory (nodesCapacity nodes pods))
      /\ forall node, In node nodes ->
           availableMemory (mapPods pods) node
             <= readMemory (LargestAvailableMemory (nodesCapacity nodes pods))).
Proof.
  rewrite nodesCapacity_run. split; intros _ H.
  - apply (run_slot_upper (mapPods pods) (availableCPU (mapPods pods)) allocatableCPU
             LargestAvailableCPU readCPU readCPU_nodePair (slot_step_CPU (mapPods pods))
             nodes newNodeAvailableCapacity H).
  - apply (run_slot_upper (mapPods pods) (availableMemory (mapPods pods)) allocatableMemory
             LargestAvailableMemory readMemory readMemory_nodePair
             (slot_step_Memory (mapPods pods)) nodes newNodeAvailableCapacity H).
Qed.

Lemma nodes_largest_upper_bound_witness :
  0 <= readCPU (LargestAvailableCPU (nodesCapacity [nodeA; nodeB; nodeC] podsOnA))
  /\ forall node, In node [nodeA; nodeB; nodeC] ->
       availableCPU (mapPods podsOnA) node
         <= readCPU (LargestAvailableCPU (nodesCapacity [nodeA; nodeB; nodeC] podsOnA)).
Proof.
  apply (proj1 (nodes_largest_upper_bound [nodeA; nodeB; nodeC] podsOnA)).
  - intros node [<- | [<- | [<- | []]]]; vm_compute; split; discriminate.
  - intros node [<- | [<- | [<- | []]]]; vm_compute; discriminate.
Defined.

(** Among nodes whose allocatable amounts fit an [int64], a node becomes,
    and stays, LargestAvailableCPU when its available CPU is strictly
    positive and exceeds the allocatable CPU of every node before it, and no
    node after it has more available CPU than this node's allocatable CPU;
    likewise for LargestAvailableMemory. *)
Theorem nodes_largest_winner (l1 l2 : list v1.Node) (node : v1.Node) (pods : list v1.Pod) :
  ((forall n, In n (l1 ++ node :: l2) -> int64_range (allocatableCPU n)) ->
   0 < availableCPU (mapPods pods) node ->
   (forall n, In n l1 -> allocatableCPU n < availableCPU (mapPods pods) node) ->
   (forall n, In n l2 -> availableCPU (mapPods pods) n <= allocatableCPU node) ->
   LargestAvailableCPU (nodesCapacity (l1 ++ node :: l2) pods) = nodePair node)
  /\ ((forall n, In n (l1 ++ node :: l2) -> int64_range (allocatableMemory n)) ->
      0 < availableMemory (mapPods pods) node ->
      (forall n, In n l1 -> allocatableMemory n < availableMemory (mapPods pods) node) ->
      (forall n, In n l2 -> availableMemory (mapPods pods) n <= allocatableMemory node) ->
      LargestAvailableMemory (nodesCapacity (l1 ++ node :: l2) pods) = nodePair node).
Proof.
  rewrite nodesCapacity_run. split; intros _ Hpos H1 H2.
  - apply (run_slot_first (mapPods pods) (availableCPU (mapPods pods)) allocatableCPU
             LargestAvailableCPU readCPU readCPU_nodePair (slot_step_CPU (mapPods pods)));
      assumption.
  - apply (run_slot_first (mapPods pods) (availableMemory (mapPods pods)) allocatableMemory
             LargestAvailableMemory readMemory readMemory_nodePair
             (slot_step_Memory (mapPods pods)));
      assumption.
Qed.

Lemma nodes_largest_winner_witness :
  LargestAvailableCPU (nodesCapacity ([nodeSmall] ++ nodeB :: [nodeC; nodeBusy]) podsOnBusy)
  = nodePair nodeB.
Proof.
  apply (proj1 (nodes_largest_winner [nodeSmall] [nodeC; nodeBusy] nodeB podsOnBusy)).
  - intros n [<- | [<- | [<- | [<- | []]]]]; vm_compute; split; discriminate.
  - reflexivity.
  - intros n [<- | []]. reflexivity.
  - intros n [<- | [<- | []]]; vm_compute; discriminate.
Defined.

(** The busiest node is the largest one, and it is passed over: the slot
    compares what is available on it. *)
Example nodes_largest_skips_busy :
  availableCPU (mapPods podsOnBusy) nodeBusy = 500
  /\ LargestAvailableCPU (nodesCapacity [nodeSmall; nodeB; nodeC; nodeBusy] podsOnBusy)
     = newResourceItem 3000 (4 * 2 ^ 30).
Proof. split; vm_compute; reflexivity. Qed.

Lemma available_no_pods (node : v1.Node) :
  int64_range (allocatableCPU node) ->
  int64_range (allocatableMemory node) ->
  availableCPU (mapPods []) node = allocatableCPU node
  /\ availableMemory (mapPods []) node = allocatableMemory node.
Proof.
  intros Hc Hm. unfold availableCPU, availableMemory.
  rewrite GetNodeAvailableResources_wrap. unfold usedBy, groupOf, mapPods. simpl.
  rewrite lookup_empty. simpl. rewrite !Z.sub_0_r.
  split; apply wrap64_id; assumption.
Qed.

(** Without pods, and for nodes whose allocatable readings are [int64]
    values, LargestAvailableCPU is the allocatable pair of the first node
    with the largest, strictly positive allocatable CPU, and
    LargestAvailableMemory that of the first node with the largest, strictly
    positive allocatable memory. *)
Theorem nodes_largest_without_pods (l1 l2 : list v1.Node) (node : v1.Node) :
  (forall n, In n (l1 ++ node :: l2) ->
             int64_range (allocatableCPU n) /\ int64_range (allocatableMemory n)) ->
  (0 < allocatableCPU node ->
   (forall n, In n l1 -> allocatableCPU n < allocatableCPU node) ->
   (forall n, In n l2 -> allocatableCPU n <= allocatableCPU node) ->
   LargestAvailableCPU (nodesCapacity (l1 ++ node :: l2) []) = nodePair node)
  /\ (0 < allocatableMemory node ->
      (forall n, In n l1 -> allocatableMemory n < allocatableMemory node) ->
      (forall n, In n l2 -> allocatableMemory n <= allocatableMemory node) ->
      LargestAvailableMemory (nodesCapacity (l1 ++ node :: l2) []) = nodePair node).
Proof.
  intros Hrange.
  assert (Hav : forall n, In n (l1 ++ node :: l2) ->
                          availableCPU (mapPods []) n = allocatableCPU n
                          /\ availableMemory (mapPods []) n = allocatableMemory n).
  { intros n Hn. destruct (Hrange n Hn). apply available_no_pods; assumption. }
  assert (Hnode : In node (l1 ++ node :: l2))
    by (apply in_or_app; right; left; reflexivity).
  assert (Hl2 : forall n, In n l2 -> In n (l1 ++ node :: l2))
    by (intros n Hn; apply in_or_app; right; right; exact Hn).
  rewrite nodesCapacity_run. split; intros Hpos H1 H2.
  - apply (run_slot_first (mapPods []) (availableCPU (mapPods [])) allocatableCPU
             LargestAvailableCPU readCPU readCPU_nodePair (slot_step_CPU (mapPods []))).
    + rewrite (proj1 (Hav node Hnode)). exact Hpos.
    + intros n Hn. rewrite (proj1 (Hav node Hnode)). apply H1, Hn.
    + intros n Hn.
      rewrite (proj1 (Hav n (Hl2 n Hn))).
      apply H2, Hn.
  - apply (run_slot_first (mapPods []) (availableMemory (mapPods [])) allocatableMemory
             LargestAvailableMemory readMemory readMemory_nodePair
             (slot_step_Memory (mapPods []))).
    + rewrite (proj2 (Hav node Hnode)). exact Hpos.
    + intros n Hn. rewrite (proj2 (Hav node Hnode)). apply H1, Hn.
    + intros n Hn.
      rewrite (proj2 (Hav n (Hl2 n Hn))).
      apply H2, Hn.
Qed.

Lemma nodes_largest_without_pods_witness :
  LargestAvailableCPU (nodesCapacity ([nodeSmall] ++ nodeB :: [nodeC]) []) = nodePair nodeB
  /\ LargestAvailableMemory (nodesCapacity ([nodeSmall; nodeC] ++ nodeBusy :: [nodeB]) [])
     = nodePair nodeBusy.
Proof.
  split.
  - apply (proj1 (nodes_largest_without_pods [nodeSmall] [nodeC] nodeB
                    ltac:(intros n [<- | [<- | [<- | []]]];
                          vm_compute; repeat split; discriminate))).
    + reflexivity.
    + intros n [<- | []]. reflexivity.
    + intros n [<- | []]. vm_compute. discriminate.
  - apply (proj2 (nodes_largest_without_pods [nodeSmall; nodeC] [nodeB] nodeBusy
                    ltac:(intros n [<- | [<- | [<- | [<- | []]]]];
                          vm_compute; repeat split; discriminate))).
    + reflexivity.
    + intros n [<- | [<- | []]]; reflexivity.
    + intros n [<- | []]. vm_compute. discriminate.
Defined.

(** ** Pods that CalculateNodesCapacity does not see *)

Lemma run_ext (mapped mapped' : gmap string (list v1.Pod)) (nodes : list v1.Node)
  (ret : NodeAvailableCapacity) :
  (forall node, In node nodes ->
     GetNodeAvailableResources node mapped = GetNodeAvailableResources node mapped') ->
  fold_left (nodesCapacityStep mapped) nodes ret
  = fold_left (nodesCapacityStep mapped') nodes ret.
Proof.
  revert ret. induction nodes as [|node nodes IH]; intros ret H; simpl; [reflexivity |].
  assert (E : nodesCapacityStep mapped ret node = nodesCapacityStep mapped' ret node).
  { unfold nodesCapacityStep. rewrite (H node (or_introl eq_refl)). reflexivity. }
  rewrite E. apply IH. intros n Hn. apply H. right. exact Hn.
Qed.

Lemma GetNodeAvailableResources_used (node : v1.Node)
  (pods pods' : gmap string (list v1.Pod)) :
  List.filter isPodUsingNodeResources (groupOf node pods)
  = List.filter isPodUsingNodeResources (groupOf node pods') ->
  GetNodeAvailableResources node pods = GetNodeAvailableResources node pods'.
Proof.
  intros E. rewrite !GetNodeAvailableResources_wrap. unfold usedBy. rewrite E.
  reflexivity.
Qed.

Lemma used_skip (name : string) (l1 l2 : list v1.Pod) (pod : v1.Pod) :
  isPodUsingNodeResources pod = false ->
  List.filter isPodUsingNodeResources (nominatedTo name (l1 ++ pod :: l2))
  = List.filter isPodUsingNodeResources (nominatedTo name (l1 ++ l2)).
Proof.
  intros Hgate. unfold nominatedTo. rewrite !List.filter_app. simpl.
  destruct (String.eqb (v1.NominatedNodeName (v1.Status pod)) name); [| reflexivity].
  rewrite ?List.filter_app. simpl. rewrite Hgate. reflexivity.
Qed.

(** The result of CalculateNodesCapacity does not change when a pod is added
    whose nominated host is the name of none of the supplied nodes (a pod
    with no nominated host, when no node has the empty name), or a pod that
    fails isPodUsingNodeResources. *)
Theorem nodes_capacity_ignores (nodes : list v1.Node) (l1 l2 : list v1.Pod) (pod : v1.Pod) :
  ((forall node, In node nodes ->
                 v1.NominatedNodeName (v1.Status pod) <> v1.Name node) ->
   nodesCapacity nodes (l1 ++ pod :: l2) = nodesCapacity nodes (l1 ++ l2))
  /\ (isPodUsingNodeResources pod = false ->
      nodesCapacity nodes (l1 ++ pod :: l2) = nodesCapacity nodes (l1 ++ l2)).
Proof.
  rewrite !nodesCapacity_run. split; intros H; apply run_ext; intros node Hin.
  - apply GetNodeAvailableResources_group.
    rewrite !groupOf_mapPods. apply nominatedTo_skip, H, Hin.
  - apply GetNodeAvailableResources_used.
    rewrite !groupOf_mapPods. apply used_skip, H.
Qed.

Lemma nodes_capacity_ignores_witness :
  nodesCapacity [nodeA; nodeB] (podsOnA ++ podNowhere1 :: [podOnB])
  = nodesCapacity [nodeA; nodeB] (podsOnA ++ [podOnB])
  /\ nodesCapacity [nodeA; nodeB]
       (podsOnA ++ examplePod v1.PodSucceeded scheduledTrue "a" 900 0 :: [podOnB])
     = nodesCapacity [nodeA; nodeB] (podsOnA ++ [podOnB]).
Proof.
  split.
  - apply (proj1 (nodes_capacity_ignores [nodeA; nodeB] podsOnA [podOnB] podNowhere1)).
    intros node [<- | [<- | []]]; discriminate.
  - apply (proj2 (nodes_capacity_ignores [nodeA; nodeB] podsOnA [podOnB]
                    (examplePod v1.PodSucceeded scheduledTrue "a" 900 0))).
    reflexivity.
Defined.

(** A pod without a nominated host is counted against a node whose name is
    empty. *)
Example empty_name_node_matches :
  GetNodeAvailableResources (exampleNode "" 1000 0)
    (mapPods [examplePod v1.PodRunning scheduledTrue "" 400 0])
  = newResourceItem 600 0.
Proof. vm_compute. reflexivity. Qed.
